(** * Structural tree-similarity scorer of [usinggeminikey.py]

    A shallow embedding of [compare_json], [score_accuracy] and the batch
    evaluation loop, over a model of the Python values [json.loads] builds. *)

From Stdlib Require Import ZArith List String Ascii Bool Lia SpecFloat.
From Stdlib Require Import Permutation.
Import ListNotations.
Local Open Scope string_scope.
Local Open Scope list_scope.
Local Open Scope Z_scope.

(** ** Exceptions and fallible computations *)

Inductive exception : Type :=
| KeyError (key : string)
| ZeroDivisionError
| OverflowError
| RecursionError (msg : string)
| Exception (msg : string).

(** [repr(s)] of a string, its characters being the code points below
    256: between apostrophes, or between double quotes when the string
    holds an apostrophe and no double quote; the quote and the backslash
    are escaped, and so is every character that is not printable. *)
Definition hex_digit (n : nat) : ascii :=
  ascii_of_nat (if Nat.ltb n 10 then 48 + n else 87 + n).

Definition printable (c : ascii) : bool :=
  let n := nat_of_ascii c in
  (Nat.leb 32 n && Nat.ltb n 127) || (Nat.leb 161 n && negb (Nat.eqb n 173)).

Definition repr_char (quote c : ascii) : list ascii :=
  let n := nat_of_ascii c in
  if Ascii.eqb c quote || Ascii.eqb c "092" then ["092"; c]%char
  else if Nat.eqb n 9 then ["092"; "t"]%char
  else if Nat.eqb n 10 then ["092"; "n"]%char
  else if Nat.eqb n 13 then ["092"; "r"]%char
  else if printable c then [c]
  else ["092"%char; "x"%char;
        hex_digit (Nat.div n 16); hex_digit (Nat.modulo n 16)].

Definition repr (s : string) : string :=
  let cs := list_ascii_of_string s in
  let quote :=
    if existsb (Ascii.eqb "'") cs && negb (existsb (Ascii.eqb "034") cs)
    then "034"%char else "'"%char in
  string_of_list_ascii (quote :: flat_map (repr_char quote) cs ++ [quote]).

(** [str(e)]: the message of the exception, and for a [KeyError] the
    [repr] of the key. *)
Definition str (e : exception) : string :=
  match e with
  | KeyError k => repr k
  | ZeroDivisionError => "division by zero"
  | OverflowError => "integer division result too large for a float"
  | RecursionError msg => msg
  | Exception msg => msg
  end.

Inductive result (A : Type) : Type :=
| Ok (a : A)
| Raise (e : exception).
Arguments Ok {A} a.
Arguments Raise {A} e.

Definition bind {A B : Type} (c : result A) (k : A -> result B) : result B :=
  match c with
  | Ok a => k a
  | Raise e => Raise e
  end.

Notation "x <- c ;; k" := (bind c (fun x => k))
  (at level 61, c at next level, right associativity).
Notation "' p <- c ;; k" := (bind c (fun x => let 'p := x in k))
  (at level 61, p pattern, c at next level, right associativity).

(** ** Python values built by [json.loads] *)

Unset Elimination Schemes.
Inductive value : Type :=
| VNone
| VBool (b : bool)
| VInt (z : Z)
| VFloat (f : spec_float)
| VStr (s : string)
| VList (items : list value)
| VDict (entries : list (string * value)).
Set Elimination Schemes.

(** Induction over trees, with the hypothesis on every element of a sequence
    and every value of a mapping. *)
Section ValueInduction.
Variable P : value -> Prop.
Hypothesis HNone : P VNone.
Hypothesis HBool : forall b, P (VBool b).
Hypothesis HInt : forall z, P (VInt z).
Hypothesis HFloat : forall f, P (VFloat f).
Hypothesis HStr : forall s, P (VStr s).
Hypothesis HList : forall xs, Forall P xs -> P (VList xs).
Hypothesis HDict :
  forall d, Forall (fun kv => P (snd kv)) d -> P (VDict d).

Fixpoint value_ind (v : value) : P v :=
  match v with
  | VNone => HNone
  | VBool b => HBool b
  | VInt z => HInt z
  | VFloat f => HFloat f
  | VStr s => HStr s
  | VList xs =>
      HList xs
        ((fix all (l : list value) : Forall P l :=
            match l with
            | [] => Forall_nil P
            | x :: l' => Forall_cons x (value_ind x) (all l')
            end) xs)
  | VDict d =>
      HDict d
        ((fix all (l : list (string * value)) :
           Forall (fun kv => P (snd kv)) l :=
            match l with
            | [] => Forall_nil _
            | kv :: l' => Forall_cons kv (value_ind (snd kv)) (all l')
            end) d)
  end.
End ValueInduction.

(** A dict is its list of entries in insertion order. *)
Definition dict : Type := list (string * value).

Fixpoint dict_get (d : dict) (k : string) : option value :=
  match d with
  | [] => None
  | (k', v) :: d' => if String.eqb k k' then Some v else dict_get d' k
  end.

(** [k in d] *)
Definition dict_contains (d : dict) (k : string) : bool :=
  match dict_get d k with
  | Some _ => true
  | None => false
  end.

(** [d[k]] *)
Definition dict_getitem (d : dict) (k : string) : result value :=
  match dict_get d k with
  | Some v => Ok v
  | None => Raise (KeyError k)
  end.

Definition dict_keys (d : dict) : list string := map fst d.

(** [len(x)] as a Python int *)
Definition len {A : Type} (l : list A) : Z := Z.of_nat (List.length l).

(** ** Binary64 floats *)

Definition prec : Z := 53.
Definition emax : Z := 1024.

(** [f == z] for a float and an int: Python compares the exact values. *)
Definition float_eq_int (f : spec_float) (z : Z) : bool :=
  match f with
  | S754_zero _ => Z.eqb z 0
  | S754_finite s m e =>
      let a := if s then Z.opp z else z in
      match e with
      | Zneg p => Z.eqb (Z.pos m) (a * Z.pow 2 (Z.pos p))
      | _ => Z.eqb a (Z.pos m * Z.pow 2 e)
      end
  | _ => false
  end.

Definition b2z (b : bool) : Z := if b then 1 else 0.

(** [a / b] on ints: the quotient rounded once to the nearest float. *)
Definition py_truediv (a b : Z) : result spec_float :=
  match b with
  | Z0 => Raise ZeroDivisionError
  | _ =>
      match a with
      | Z0 => Ok (S754_zero (b <? 0))
      | _ =>
          let q := SFdiv prec emax
                     (S754_finite (a <? 0) (Z.to_pos (Z.abs a)) 0)
                     (S754_finite (b <? 0) (Z.to_pos (Z.abs b)) 0) in
          match q with
          | S754_infinity _ => Raise OverflowError
          | _ => Ok q
          end
      end
  end.

(** [float(z)] *)
Definition float_of_int (z : Z) : spec_float :=
  binary_normalize prec emax z 0 false.

(** A decimal literal [digits / 10^places] such as [66.67]: the float
    nearest to the decimal. *)
Definition decimal_literal (digits : Z) (places : nat) : spec_float :=
  match digits with
  | Zpos n =>
      SFdiv prec emax (S754_finite false n 0)
            (S754_finite false (Z.to_pos (Z.pow 10 (Z.of_nat places))) 0)
  | _ => S754_zero false
  end.

(** The literals [100.0] and [0.0] *)
Definition float_100 : spec_float := decimal_literal 1000 1.
Definition float_zero : spec_float := decimal_literal 0 1.

(** [x * y] on floats *)
Definition float_mul (x y : spec_float) : spec_float := SFmul prec emax x y.

(** The integer nearest to [n / d], ties going to the even one. *)
Definition div_half_even (n d : Z) : Z :=
  let q := n / d in
  match 2 * (n mod d) ?= d with
  | Lt => q
  | Gt => q + 1
  | Eq => if Z.even q then q else q + 1
  end.

(** [round(x, ndigits)] for [ndigits >= 0]: the exact value of [x] is
    rounded to [ndigits] decimals, ties to even, and the decimal obtained is
    converted back to the nearest float. *)
Definition py_round (x : spec_float) (ndigits : nat) : spec_float :=
  match x with
  | S754_finite s m e =>
      let scale := Z.pow 10 (Z.of_nat ndigits) in
      let n :=
        match e with
        | Zneg p => div_half_even (Z.pos m * scale) (Z.pow 2 (Z.pos p))
        | _ => Z.pos m * Z.pow 2 e * scale
        end in
      match n with
      | Zpos n' =>
          SFdiv prec emax (S754_finite s n' 0)
                (S754_finite false (Z.to_pos scale) 0)
      | _ => S754_zero s
      end
  | _ => x
  end.

(** ** [==] on values

    Ints, floats and Booleans compare by numeric value ([True == 1],
    [1 == 1.0]), a NaN differs from everything, itself included, and
    values of different kinds are otherwise unequal. Python's containers
    take an item that is the same object on both sides as equal without
    comparing it; that shortcut is not modelled. It changes the result only
    for a NaN held inside a container ([json.loads] gives one NaN object for
    every NaN it reads), so [py_eq] is the [==] of the code on trees without
    NaN, and on the operands of the last branch of [compare_json], which
    are compared directly. *)

Section Equality.
Variable eq : value -> value -> bool.

(** Lists are equal when they have the same length and equal items. *)
Fixpoint list_eq (xs ys : list value) {struct xs} : bool :=
  match xs, ys with
  | [], [] => true
  | x :: xs', y :: ys' => eq x y && list_eq xs' ys'
  | _, _ => false
  end.

(** Every entry of [items] has an equal value under its key in [e]. *)
Fixpoint items_in (e : dict) (items : dict) {struct items} : bool :=
  match items with
  | [] => true
  | (k, v) :: rest =>
      match dict_get e k with
      | Some w => eq v w
      | None => false
      end && items_in e rest
  end.

(** Dicts are equal when they have the same number of entries and every
    entry of the first is in the second. *)
Definition dict_eq (d e : dict) : bool :=
  Nat.eqb (List.length d) (List.length e) && items_in e d.
End Equality.

Fixpoint py_eq (a b : value) {struct a} : bool :=
  match a with
  | VNone => match b with VNone => true | _ => false end
  | VBool x =>
      match b with
      | VBool y => Bool.eqb x y
      | VInt z => Z.eqb (b2z x) z
      | VFloat f => float_eq_int f (b2z x)
      | _ => false
      end
  | VInt x =>
      match b with
      | VBool y => Z.eqb x (b2z y)
      | VInt z => Z.eqb x z
      | VFloat f => float_eq_int f x
      | _ => false
      end
  | VFloat f =>
      match b with
      | VBool y => float_eq_int f (b2z y)
      | VInt z => float_eq_int f z
      | VFloat g => SFeqb f g
      | _ => false
      end
  | VStr s => match b with VStr t => String.eqb s t | _ => false end
  | VList xs => match b with VList ys => list_eq py_eq xs ys | _ => false end
  | VDict d => match b with VDict e => dict_eq py_eq d e | _ => false end
  end.

(** ** 5) Accuracy scoring: [compare_json] *)

Section Loops.
Variable compare : value -> value -> result (Z * Z).

(** [for k in gold: total += 1; if k in pred: ...], the accumulator being
    [(matches, total)]. *)
Fixpoint dict_loop (pred : dict) (gold : dict) (acc : Z * Z)
  {struct gold} : result (Z * Z) :=
  match gold with
  | [] => Ok acc
  | (k, gold_k) :: rest =>
      let '(matches, total) := acc in
      let total := total + 1 in
      if dict_contains pred k then
        pred_k <- dict_getitem pred k ;;
        '(sub_m, sub_t) <- compare gold_k pred_k ;;
        dict_loop pred rest (matches + sub_m, total + sub_t)
      else dict_loop pred rest (matches, total)
  end.

(** [for g, p in zip(gold, pred): ...] *)
Fixpoint zip_loop (gold pred : list value) (acc : Z * Z)
  {struct gold} : result (Z * Z) :=
  match gold, pred with
  | g :: gold', p :: pred' =>
      let '(matches, total) := acc in
      '(sub_m, sub_t) <- compare g p ;;
      zip_loop gold' pred' (matches + sub_m, total + sub_t)
  | _, _ => Ok acc
  end.
End Loops.

(** [compare_json(gold, pred)], by recursion on the trees. The frames the
    interpreter has left for the recursion are counted by
    [compare_json_at] below. *)
Fixpoint compare_json (gold pred : value) {struct gold} : result (Z * Z) :=
  match gold, pred with
  | VDict g, VDict p => dict_loop compare_json p g (0, 0)
  | VList g, VList p =>
      '(matches, total) <- zip_loop compare_json g p (0, 0) ;;
      Ok (matches, total + Z.abs (len g - len p))
  | _, _ => Ok (if py_eq gold pred then 1 else 0, 1)
  end.

(** ** [score_accuracy] *)

Section Scorer.
Variable compare : value -> value -> result (Z * Z).

Definition score_accuracy_with (gold pred : value) : result value :=
  if py_eq gold pred then
    Ok (VDict [("exact_match", VInt 1); ("match_percent", VFloat float_100)])
  else
    '(matches, total) <- compare gold pred ;;
    match_percent <-
      (if total >? 0 then
         q <- py_truediv matches total ;;
         Ok (py_round (float_mul q (float_of_int 100)) 2)
       else Ok float_zero) ;;
    Ok (VDict [("exact_match", VInt 0);
               ("match_percent", VFloat match_percent);
               ("matches", VInt matches);
               ("total", VInt total)]).
End Scorer.

Definition score_accuracy : value -> value -> result value :=
  score_accuracy_with compare_json.

(** ** 2) Node helper: the reference producer *)

(** What [subprocess.run(cmd, capture_output=True, text=True, check=True)]
    gives for the node process: its standard output when it exits with
    status 0, a [CalledProcessError] carrying its standard error
    otherwise. *)
Inductive node_run : Type :=
| Completed (stdout : string)
| CalledProcessError (stderr : string).

Section Producers.
(** The node process on a query, [json.loads] and [str.strip]. *)
Variable run_node : string -> node_run.
Variable json_loads : string -> result value.
Variable strip : string -> string.

Definition parse_with_node (sql : string) : result value :=
  match run_node sql with
  | Completed stdout => json_loads stdout
  | CalledProcessError stderr =>
      match json_loads stderr with
      | Ok ast => Ok ast
      | Raise _ => Ok (VDict [("error", VStr (strip stderr))])
      end
  end.

(** ** 6) Batch testing *)

(** The candidate producer, which may raise. *)
Variable call_llm_to_generate_ast_gemini : string -> result value.
(** The scoring routine called in the loop. *)
Variable score_routine : value -> value -> result value.

(** The body of [for sql in test_sqls], returning the appended record. *)
Definition batch_item (sql : string) : result value :=
  gold_ast <- parse_with_node sql ;;
  let score :=
    match (llm_ast <- call_llm_to_generate_ast_gemini sql ;;
           score_routine gold_ast llm_ast) with
    | Ok score => score
    | Raise e =>
        VDict [("error", VStr (str e));
               ("exact_match", VInt 0);
               ("match_percent", VFloat float_zero)]
    end in
  Ok (VDict [("sql", VStr sql); ("score", score)]).

(** [for sql in test_sqls: ...; results.append(...)] *)
Fixpoint batch_loop (test_sqls : list string) (results : list value)
  {struct test_sqls} : result (list value) :=
  match test_sqls with
  | [] => Ok results
  | sql :: rest =>
      item <- batch_item sql ;;
      batch_loop rest (results ++ [item])
  end.

(** The node helper prints the AST as JSON when it exits with status 0. *)
Definition node_prints_json : Prop :=
  forall sql stdout,
    run_node sql = Completed stdout -> exists ast, json_loads stdout = Ok ast.
End Producers.

(** The batch of the script: [results = []] and the loop, scoring with
    [score_accuracy]. *)
Definition batch_results
  (run_node : string -> node_run)
  (json_loads : string -> result value)
  (strip : string -> string)
  (call_llm_to_generate_ast_gemini : string -> result value)
  (test_sqls : list string) : result (list value) :=
  batch_loop run_node json_loads strip call_llm_to_generate_ast_gemini
             score_accuracy test_sqls [].

(** ** Notions used to state the properties *)

Definition is_dict (v : value) : bool :=
  match v with VDict _ => true | _ => false end.

Definition is_list (v : value) : bool :=
  match v with VList _ => true | _ => false end.

(** The inputs of the last branch: [gold] is no mapping, and the two are not
    both sequences. *)
Definition else_case (gold pred : value) : bool :=
  negb (is_dict gold) && negb (is_list gold && is_list pred).

Fixpoint sumZ (l : list Z) : Z :=
  match l with
  | [] => 0
  | x :: l' => x + sumZ l'
  end.

(** A result [(matches, total)] in range. *)
Definition in_range (sub : Z * Z) : Prop := 0 <= fst sub <= snd sub.

(** What the key of one entry of [gold] adds to [(matches, total)] beyond
    its presence check, the values being compared by [compare]. *)
Definition key_result (compare : value -> value -> result (Z * Z))
  (pred : dict) (entry : string * value) (sub : Z * Z) : Prop :=
  match dict_get pred (fst entry) with
  | Some pred_k => compare (snd entry) pred_k = Ok sub
  | None => sub = (0, 0)
  end.

Definition key_contribution : dict -> string * value -> Z * Z -> Prop :=
  key_result compare_json.

(** Type-sensitive deep value equality over the variants Null, Boolean,
    Number, String, Sequence and Mapping: values of different variants are
    never equal, numbers are compared by value, sequences position by
    position, mappings key by key whatever the order. *)
Fixpoint deep_equal (a b : value) {struct a} : bool :=
  match a with
  | VNone => match b with VNone => true | _ => false end
  | VBool x => match b with VBool y => Bool.eqb x y | _ => false end
  | VInt x =>
      match b with
      | VInt z => Z.eqb x z
      | VFloat f => float_eq_int f x
      | _ => false
      end
  | VFloat f =>
      match b with
      | VInt z => float_eq_int f z
      | VFloat g => SFeqb f g
      | _ => false
      end
  | VStr s => match b with VStr t => String.eqb s t | _ => false end
  | VList xs =>
      match b with VList ys => list_eq deep_equal xs ys | _ => false end
  | VDict d =>
      match b with VDict e => dict_eq deep_equal d e | _ => false end
  end.

(** The tree in which every Boolean is replaced by the int it is in Python
    ([True] is [1], [False] is [0]). *)
Fixpoint as_number (v : value) : value :=
  match v with
  | VBool b => VInt (b2z b)
  | VList xs => VList (map as_number xs)
  | VDict d => VDict (map (fun kv => (fst kv, as_number (snd kv))) d)
  | _ => v
  end.

Definition is_number (v : value) : bool :=
  match v with VInt _ | VFloat _ => true | _ => false end.

Definition is_str (v : value) : bool :=
  match v with VStr _ => true | _ => false end.

(** The last branch as read with type-sensitive equality. *)
Definition else_branch_type_sensitive (gold pred : value) : Prop :=
  else_case gold pred = true ->
  exists matches,
    compare_json gold pred = Ok (matches, 1) /\
    (matches = 1 <-> deep_equal gold pred = true).

(** Well-formed trees: floats are binary64 numbers (no NaN) and the keys of
    a mapping are unique. *)
Definition float_ok (f : spec_float) : bool :=
  match f with
  | S754_nan => false
  | _ => valid_binary prec emax f
  end.

Fixpoint unique_keys (ks : list string) : bool :=
  match ks with
  | [] => true
  | k :: ks' => negb (existsb (String.eqb k) ks') && unique_keys ks'
  end.

Fixpoint well_formed (v : value) : bool :=
  match v with
  | VFloat f => float_ok f
  | VList xs => forallb well_formed xs
  | VDict d =>
      unique_keys (map fst d) && forallb (fun kv => well_formed (snd kv)) d
  | _ => true
  end.

(** Size of a tree: one per node. *)
Fixpoint size (v : value) : nat :=
  match v with
  | VList xs => S (list_sum (map size xs))
  | VDict d => S (list_sum (map (fun kv => size (snd kv)) d))
  | _ => 1%nat
  end.




(** ** The interpreter's recursion limit

    Python runs every call of a function in a frame of its own and admits
    only so many nested frames ([sys.setrecursionlimit], 1000 by default):
    a call that does not fit raises [RecursionError]. The [==] of two
    containers compares their items by nested comparisons, which the
    interpreter limits in the same way. How many frames and how many nested
    comparisons are left at a call depends on the interpreter and on the
    caller, and so does the message of the error: the functions below take
    them as arguments. The two trees are distinct objects, as the two
    producers build them. An item that is one object on both sides ([None],
    [True] and [False] always are) costs the interpreter no nested
    comparison and is compared like any other here; what the built-in calls
    of a body take beyond its frame, one level at most, is not counted. The
    properties stated of these functions leave one level spare. *)



Section RecursionLimit.
(** The messages of a call and of a comparison that do not fit. *)
Variable in_call : string.
Variable in_comparison : string.

Section EqualityAt.
Variable eq : value -> value -> result bool.


End EqualityAt.



End RecursionLimit.


(** The bound [mB * 2^eB] seen at an exponent [e <= eB]. *)
Definition bound_at (mB : positive) (eB : Z) (e : Z) : Z :=
  Z.pos mB * 2 ^ (eB - e).

(** A float that is not negative and at most [mB * 2^eB]. *)
Definition below (mB : positive) (eB : Z) (r : spec_float) : Prop :=
  match r with
  | S754_zero false => True
  | S754_finite false m e => e <= eB /\ Z.pos m <= bound_at mB eB e
  | _ => False
  end.

(** The mantissas of [1.0] and [100.0], of exponents [-52] and [-46]. *)
Definition mant_one : positive := Z.to_pos (2 ^ 52).
Definition mant_100 : positive := 7036874417766400.

(** [x <= y] on floats *)
Definition float_le (x y : spec_float) : bool := SFleb x y.

(** Test trees *)
Definition tree_a1_b2 : value := VDict [("a", VInt 1); ("b", VInt 2)].
Definition tree_a1 : value := VDict [("a", VInt 1)].
Definition tree_123 : value := VList [VInt 1; VInt 2; VInt 3].
Definition tree_12 : value := VList [VInt 1; VInt 2].

(** ** Further notions: leaves, keys, the report, the candidate producer *)

(** Number of scalar leaves of a tree. *)
Fixpoint scalar_leaves (v : value) : nat :=
  match v with
  | VList xs => list_sum (map scalar_leaves xs)
  | VDict d => list_sum (map (fun kv => scalar_leaves (snd kv)) d)
  | _ => 1%nat
  end.

(** Number of keys of all the mappings of a tree. *)
Fixpoint mapping_keys (v : value) : nat :=
  match v with
  | VList xs => list_sum (map mapping_keys xs)
  | VDict d =>
      (List.length d + list_sum (map (fun kv => mapping_keys (snd kv)) d))%nat
  | _ => 0%nat
  end.

(** What [compare_json] returns on equal trees. *)
Definition equal_result (v : value) : Z * Z :=
  (Z.of_nat (scalar_leaves v),
   Z.of_nat (scalar_leaves v + mapping_keys v)).

(** Componentwise sum of two results. *)
Definition add_results (r1 r2 : result (Z * Z)) : result (Z * Z) :=
  '(m1, t1) <- r1 ;;
  '(m2, t2) <- r2 ;;
  Ok (m1 + m2, t1 + t2).

(** The floats [0.0] and [-0.0]. *)
Definition is_zero (f : spec_float) : bool :=
  match f with S754_zero _ => true | _ => false end.

(** What the entry of a key of [gold] adds to [(matches, total)] beyond its
    presence check. *)
Definition entry_result (pred : dict) (entry : string * value) : Z * Z :=
  match dict_get pred (fst entry) with
  | Some pred_k =>
      match compare_json (snd entry) pred_k with
      | Ok sub => sub
      | Raise _ => (0, 0)
      end
  | None => (0, 0)
  end.

(** The same, for the key [k] of the mapping [gold]. *)
Definition key_total (gold pred : dict) (k : string) : Z * Z :=
  match dict_get gold k with
  | Some gold_k => entry_result pred (k, gold_k)
  | None => (0, 0)
  end.

(** ** Report *)

Section Report.
(** The [TypeError] of [r[k]] and the [AttributeError] of [r.get] when [r]
    is no dict, and what [sum] does from the first item that is no int. *)
Variable not_subscriptable : value -> exception.
Variable no_attribute_get : value -> exception.
Variable sum_from_other : Z -> value -> list value -> result value.

(** [r[k]] *)
Definition subscript (r : value) (k : string) : result value :=
  match r with
  | VDict d => dict_getitem d k
  | _ => Raise (not_subscriptable r)
  end.

(** [r.get(k, default)] *)
Definition get (r : value) (k : string) (default : value) : result value :=
  match r with
  | VDict d =>
      Ok (match dict_get d k with
          | Some v => v
          | None => default
          end)
  | _ => Raise (no_attribute_get r)
  end.

(** [sum(r["score"].get("exact_match", 0) for r in results)], [acc] being
    the sum of the items already taken. *)
Fixpoint sum_exact_match (acc : Z) (results : list value)
  {struct results} : result value :=
  match results with
  | [] => Ok (VInt acc)
  | r :: rest =>
      score <- subscript r "score" ;;
      item <- get score "exact_match" (VInt 0) ;;
      match item with
      | VInt z => sum_exact_match (acc + z) rest
      | VBool b => sum_exact_match (acc + b2z b) rest
      | _ => sum_from_other acc item rest
      end
  end.

Definition total_exact (results : list value) : result value :=
  sum_exact_match 0 results.
End Report.

(** Whether the candidate producer returns, for [sql], a tree equal to the
    one of the reference producer. *)
Definition exact_item
  (run_node : string -> node_run)
  (json_loads : string -> result value)
  (strip : string -> string)
  (call_llm_to_generate_ast_gemini : string -> result value)
  (sql : string) : bool :=
  match parse_with_node run_node json_loads strip sql,
        call_llm_to_generate_ast_gemini sql with
  | Ok gold_ast, Ok llm_ast => py_eq gold_ast llm_ast
  | _, _ => false
  end.

(** A score record as the report reads it: [exact_match] is [flag], and
    [match_percent] a float within [0.0, 100.0]. *)
Definition score_record (flag : bool) (score : value) : Prop :=
  exists entries match_percent,
    score = VDict entries /\
    dict_get entries "exact_match" = Some (VInt (b2z flag)) /\
    dict_get entries "match_percent" = Some (VFloat match_percent) /\
    float_le float_zero match_percent = true /\
    float_le match_percent float_100 = true.

(** ** 4) The candidate producer *)

(** [l] without the prefix [pre], when it starts with it. *)
Fixpoint strip_prefix (pre l : list ascii) {struct pre}
  : option (list ascii) :=
  match pre with
  | [] => Some l
  | c :: pre' =>
      match l with
      | [] => None
      | c' :: l' => if Ascii.eqb c c' then strip_prefix pre' l' else None
      end
  end.

Definition chars (s : string) : list ascii := list_ascii_of_string s.

Section Candidate.
(** Whether a character is whitespace for [str.strip] and the class [\s]. *)
Variable is_space : ascii -> bool.

Fixpoint drop_spaces (l : list ascii) : list ascii :=
  match l with
  | [] => []
  | c :: l' => if is_space c then drop_spaces l' else l
  end.

(** [content.strip()] *)
Definition strip_chars (content : list ascii) : list ascii :=
  rev (drop_spaces (rev (drop_spaces content))).

(** [re.sub(r"^```(?:json)?\s*", "", content)]: an opening fence at the
    start goes with its [json] tag and the whitespace after it. *)
Definition sub_open_fence (content : list ascii) : list ascii :=
  match strip_prefix (chars "```") content with
  | Some rest =>
      drop_spaces
        match strip_prefix (chars "json") rest with
        | Some rest' => rest'
        | None => rest
        end
  | None => content
  end.

(** [re.sub(r"\s*```$", "", content)]: a closing fence at the end, or
    before the newline that ends the string, goes with the whitespace
    before it. *)
Definition sub_close_fence (content : list ascii) : list ascii :=
  let reversed := rev content in
  match strip_prefix (chars "```") reversed with
  | Some before => rev (drop_spaces before)
  | None =>
      match reversed with
      | "010"%char :: reversed' =>
          match strip_prefix (chars "```") reversed' with
          | Some before => rev ("010"%char :: drop_spaces before)
          | None => content
          end
      | _ => content
      end
  end.

(** The text given to [json.loads]. *)
Definition clean_content (text : string) : string :=
  string_of_list_ascii
    (sub_close_fence (sub_open_fence (strip_chars (chars text)))).

(** The prompt parts, the model call with [resp.text], and [json.loads]. *)
Variable system_msg : string.
Variable examples_text : string.
Variable generate_content_text : string -> result string.
Variable json_loads : string -> result value.

Definition prompt_of (sql_query : string) : string :=
  (system_msg ++ String "010" (String "010" EmptyString) ++ examples_text ++
   String "010" "SQL:" ++ String "010" EmptyString ++ sql_query ++
   String "010" (String "010" "AST (node-sql-parser JSON):") ++
   String "010" EmptyString)%string.

Definition call_llm_to_generate_ast_gemini (sql_query : string)
  : result value :=
  text <- generate_content_text (prompt_of sql_query) ;;
  json_loads (clean_content text).
End Candidate.

(** The whitespace characters of ASCII: tab to carriage return, the four
    separators and the space. *)
Definition ascii_whitespace (c : ascii) : bool :=
  let n := nat_of_ascii c in
  ((9 <=? n) && (n <=? 13) || (28 <=? n) && (n <=? 32))%nat.

(** Producers for examples: the parser fails on every query but one, the
    model answers that one with an unparsable text. *)
Definition sample_run_node (sql : string) : node_run :=
  if String.eqb sql "DROP TABLE temp_data;"
  then Completed "{}"
  else CalledProcessError "syntax error".

Definition sample_json_loads (text : string) : result value :=
  if String.eqb text "{}" then Ok (VDict [])
  else Raise (Exception "Expecting value").

Definition sample_llm (sql : string) : result value :=
  if String.eqb sql "DROP TABLE temp_data;"
  then Raise (Exception "Expecting value")
  else Ok (VDict [("error", VStr "syntax error")]).

Definition sample_sqls : list string :=
  ["DROP TABLE temp_data;"; "SELECT FROM;"].

(** Trees that hold no mapping. *)
Fixpoint mapping_free (v : value) : bool :=
  match v with
  | VList xs => forallb mapping_free xs
  | VDict _ => false
  | _ => true
  end.

(** * Properties of [compare_json] *)

Lemma sumZ_in_range (subs : list (Z * Z)) :
  Forall in_range subs ->
  0 <= sumZ (map fst subs) <= sumZ (map snd subs).
Proof.
  induction 1 as [ | sub subs Hsub _ IH]; simpl; [lia | ].
  unfold in_range in Hsub. lia.
Qed.

Section LoopResults.
Variable compare : value -> value -> result (Z * Z).

Lemma dict_loop_sums (pred gold : dict) (subs : list (Z * Z)) :
  Forall2 (key_result compare pred) gold subs ->
  forall acc,
    dict_loop compare pred gold acc =
    Ok (fst acc + sumZ (map fst subs),
        snd acc + len gold + sumZ (map snd subs)).
Proof.
  induction 1 as [ | [k gold_k] sub gold subs Hk _ IH]; intros [m t].
  - simpl. unfold len. simpl. f_equal. f_equal; lia.
  - cbn [dict_loop]. unfold key_result in Hk. simpl in Hk.
    unfold dict_contains, dict_getitem.
    destruct (dict_get pred k) as [pred_k | ].
    + cbn [bind]. rewrite Hk. destruct sub as [sub_m sub_t]. cbn [bind].
      rewrite IH. unfold len. cbn [fst snd map sumZ List.length].
      rewrite Nat2Z.inj_succ. f_equal. f_equal; lia.
    + subst sub. rewrite IH. unfold len.
      cbn [fst snd map sumZ List.length].
      rewrite Nat2Z.inj_succ. f_equal. f_equal; lia.
Qed.

Lemma zip_loop_sums (gold pred : list value) (subs : list (Z * Z)) :
  Forall2 (fun gp sub => compare (fst gp) (snd gp) = Ok sub)
          (combine gold pred) subs ->
  forall acc,
    zip_loop compare gold pred acc =
    Ok (fst acc + sumZ (map fst subs), snd acc + sumZ (map snd subs)).
Proof.
  revert pred subs.
  induction gold as [ | g gold IH]; intros pred subs Hsubs [m t].
  - simpl in Hsubs. inversion Hsubs; subst. simpl. f_equal. f_equal; lia.
  - destruct pred as [ | p pred].
    + simpl in Hsubs. inversion Hsubs; subst. simpl. f_equal. f_equal; lia.
    + simpl in Hsubs. inversion Hsubs as [ | gp sub l subs' Hc Hrest]; subst.
      cbn [zip_loop]. simpl in Hc. rewrite Hc.
      destruct sub as [sub_m sub_t]. cbn [bind].
      rewrite (IH pred subs' Hrest).
      cbn [fst snd map sumZ]. f_equal. f_equal; lia.
Qed.

(** Sub-results exist as soon as [compare] returns on the elements. *)
Lemma key_results_exist (pred gold : dict) :
  Forall (fun kv => forall p, exists sub,
              compare (snd kv) p = Ok sub /\ in_range sub) gold ->
  exists subs,
    Forall2 (key_result compare pred) gold subs /\ Forall in_range subs.
Proof.
  induction 1 as [ | [k gold_k] gold Hk _ (subs & Hsubs & Hr)].
  - exists []. split; constructor.
  - destruct (dict_get pred k) as [pred_k | ] eqn:Hget.
    + destruct (Hk pred_k) as (sub & Hsub & Hin).
      exists (sub :: subs). split; constructor; auto.
      unfold key_result. simpl. rewrite Hget. exact Hsub.
    + exists ((0, 0) :: subs). split; constructor; auto.
      * unfold key_result. simpl. rewrite Hget. reflexivity.
      * unfold in_range. simpl. lia.
Qed.

Lemma zip_results_exist (gold pred : list value) :
  Forall (fun g => forall p, exists sub,
              compare g p = Ok sub /\ in_range sub) gold ->
  exists subs,
    Forall2 (fun gp sub => compare (fst gp) (snd gp) = Ok sub)
            (combine gold pred) subs /\ Forall in_range subs.
Proof.
  intro H. revert pred.
  induction H as [ | g gold Hg _ IH]; intro pred.
  - exists []. split; constructor.
  - destruct pred as [ | p pred].
    + exists []. split; constructor.
    + destruct (Hg p) as (sub & Hsub & Hin).
      destruct (IH pred) as (subs & Hsubs & Hr).
      exists (sub :: subs). split; constructor; auto.
Qed.
End LoopResults.


Lemma compare_json_else (gold pred : value) :
  else_case gold pred = true ->
  compare_json gold pred = Ok (if py_eq gold pred then 1 else 0, 1).
Proof.
  destruct gold; try reflexivity; destruct pred; try reflexivity;
    simpl; discriminate.
Qed.

Lemma in_range_flag (b : bool) : in_range (if b then 1 else 0, 1).
Proof. unfold in_range. destruct b; simpl; lia. Qed.

(** [compare_json] returns, and its result is in range. *)
Lemma compare_json_returns (gold pred : value) :
  exists sub, compare_json gold pred = Ok sub /\ in_range sub.
Proof.
  revert pred.
  induction gold as [ | b | z | f | s | xs IH | d IH] using value_ind;
    intro pred;
    try (rewrite compare_json_else by reflexivity;
         eexists; split; [reflexivity | apply in_range_flag]).
  - destruct pred as [ | | | | | ys | ];
      try (rewrite compare_json_else by reflexivity;
           eexists; split; [reflexivity | apply in_range_flag]).
    destruct (zip_results_exist compare_json xs ys IH) as (subs & Hsubs & Hr).
    cbn [compare_json]. rewrite (zip_loop_sums _ _ _ _ Hsubs). cbn [bind fst snd].
    eexists; split; [reflexivity | ].
    pose proof (sumZ_in_range subs Hr). unfold in_range. simpl. lia.
  - destruct pred as [ | | | | | | e];
      try (eexists; split; [reflexivity | ]; unfold in_range; simpl; lia).
    destruct (key_results_exist compare_json e d IH) as (subs & Hsubs & Hr).
    cbn [compare_json]. rewrite (dict_loop_sums _ _ _ _ Hsubs). cbn [fst snd].
    eexists; split; [reflexivity | ].
    pose proof (sumZ_in_range subs Hr). unfold in_range, len. simpl. lia.
Qed.

(** Small inputs: the cases of the three branches. *)

Example compare_json_123_12 : compare_json tree_123 tree_12 = Ok (2, 3).
Proof. reflexivity. Qed.

Example compare_json_a1_a1 : compare_json tree_a1 tree_a1 = Ok (1, 2).
Proof. reflexivity. Qed.

Example compare_json_empty_dict_list :
  compare_json (VDict []) (VList []) = Ok (0, 1).
Proof. reflexivity. Qed.

Example compare_json_int_float :
  compare_json (VInt 1) (VFloat (decimal_literal 10 1)) = Ok (1, 1).
Proof. vm_compute. reflexivity. Qed.

Example compare_json_int_str :
  compare_json (VInt 1) (VStr "1") = Ok (0, 1).
Proof. reflexivity. Qed.

Example compare_json_nested :
  compare_json
    (VDict [("type", VStr "select"); ("columns", VList [VStr "id"; VStr "name"])])
    (VDict [("columns", VList [VStr "id"]); ("type", VStr "select")]) =
  Ok (2, 5).
Proof. reflexivity. Qed.

(** * Bounds on rounded float operations *)

Section ShiftRight.

Lemma iter_pos_nat {A : Type} (f : A -> A) (p : positive) (x : A) :
iter_pos f p x = Nat.iter (Pos.to_nat p) f x.
Proof.
revert x. induction p as [p IH | p IH | ]; intro x; cbn [iter_pos].
- rewrite !IH, Pos2Nat.inj_xI.
  replace (2 * Pos.to_nat p)%nat with (Pos.to_nat p + Pos.to_nat p)%nat by lia.
  rewrite Nat.iter_succ_r, Nat.iter_add. reflexivity.
- rewrite !IH, Pos2Nat.inj_xO.
  replace (2 * Pos.to_nat p)%nat with (Pos.to_nat p + Pos.to_nat p)%nat by lia.
  rewrite Nat.iter_add. reflexivity.
- reflexivity.
Qed.

Lemma shr_1_m (mrs : shr_record) :
0 <= shr_m mrs -> shr_m (shr_1 mrs) = shr_m mrs / 2.
Proof.
destruct mrs as [m r s]; simpl. intro Hm.
destruct m as [ | [p | p | ] | p]; simpl; try lia; try reflexivity.
- rewrite Pos2Z.inj_xI. apply Z.div_unique with (r := 1); lia.
- rewrite Pos2Z.inj_xO. apply Z.div_unique with (r := 0); lia.
Qed.

Lemma shr_1_exact (mrs : shr_record) :
0 <= shr_m mrs -> shr_r mrs = false -> shr_s mrs = false ->
shr_m mrs mod 2 = 0 ->
shr_r (shr_1 mrs) = false /\ shr_s (shr_1 mrs) = false.
Proof.
destruct mrs as [m r s]; simpl. intros Hm -> ->.
destruct m as [ | [p | p | ] | p]; simpl; intros Hmod; try lia; auto.
- rewrite Pos2Z.inj_xI in Hmod.
  rewrite Z.add_comm, Z.mul_comm, Z.mod_add in Hmod by lia. discriminate.
- discriminate.
Qed.

Lemma shr_iter_m (n : nat) (mrs : shr_record) :
0 <= shr_m mrs ->
shr_m (Nat.iter n shr_1 mrs) = shr_m mrs / 2 ^ Z.of_nat n.
Proof.
intro Hm. induction n as [ | n IH].
- simpl. now rewrite Z.div_1_r.
- rewrite Nat.iter_succ, shr_1_m, IH.
  + rewrite Nat2Z.inj_succ, Z.pow_succ_r by lia.
    rewrite Z.div_div by lia. f_equal. lia.
  + rewrite IH. apply Z.div_pos; lia.
Qed.

Lemma shr_iter_exact (n : nat) (mrs : shr_record) :
0 <= shr_m mrs -> shr_r mrs = false -> shr_s mrs = false ->
shr_m mrs mod 2 ^ Z.of_nat n = 0 ->
shr_r (Nat.iter n shr_1 mrs) = false /\ shr_s (Nat.iter n shr_1 mrs) = false.
Proof.
intros Hm Hr Hs. induction n as [ | n IH]; intro Hmod.
- simpl. auto.
- rewrite Nat2Z.inj_succ, Z.pow_succ_r in Hmod by lia.
  assert (Hpos : 0 < 2 ^ Z.of_nat n) by (apply Z.pow_pos_nonneg; lia).
  apply Z.mod_divide in Hmod; [ | lia].
  destruct Hmod as [c Hc].
  assert (Hn : shr_m mrs mod 2 ^ Z.of_nat n = 0).
  { apply Z.mod_divide; [lia | ]. exists (c * 2). lia. }
  destruct (IH Hn) as [Hr' Hs'].
  rewrite Nat.iter_succ. apply shr_1_exact; auto.
  + rewrite shr_iter_m by exact Hm. apply Z.div_pos; lia.
  + rewrite shr_iter_m by exact Hm. rewrite Hc.
    replace (c * (2 * 2 ^ Z.of_nat n)) with (c * 2 * 2 ^ Z.of_nat n) by lia.
    rewrite Z.div_mul by lia. apply Z.mod_mul. lia.
Qed.

End ShiftRight.

Section Digits.

Lemma digits2_pos_size (p : positive) : digits2_pos p = Pos.size p.
Proof. induction p as [p IH | p IH | ]; simpl; congruence. Qed.

Lemma Zdigits2_log2 (m : Z) : 0 < m -> Zdigits2 m = Z.succ (Z.log2 m).
Proof.
destruct m as [ | p | p]; try lia. intros _.
simpl. rewrite digits2_pos_size.
destruct p as [p | p | ]; simpl; lia.
Qed.

Lemma Zdigits2_nonneg (m : Z) : 0 <= Zdigits2 m.
Proof. destruct m; simpl; lia. Qed.

Lemma Zdigits2_le (a b : Z) : 0 <= a -> a <= b -> Zdigits2 a <= Zdigits2 b.
Proof.
intros Ha Hab. destruct (Z.eq_dec a 0) as [-> | Hne].
- apply Zdigits2_nonneg.
- rewrite !Zdigits2_log2 by lia. apply Zsucc_le_compat, Z.log2_le_mono, Hab.
Qed.

Lemma Zdigits2_mul_pow2 (a k : Z) :
0 < a -> 0 <= k -> Zdigits2 (a * 2 ^ k) = Zdigits2 a + k.
Proof.
intros Ha Hk.
assert (0 < 2 ^ k) by (apply Z.pow_pos_nonneg; lia).
rewrite !Zdigits2_log2 by nia. rewrite Z.log2_mul_pow2 by lia. lia.
Qed.

Lemma fexp_le (a b : Z) : a <= b -> fexp prec emax a <= fexp prec emax b.
Proof. unfold fexp. lia. Qed.

Lemma canonical_fexp (m : positive) (e : Z) :
canonical_mantissa prec emax m e = true ->
fexp prec emax (Zdigits2 (Z.pos m) + e) = e.
Proof. unfold canonical_mantissa. intro H. apply Z.eqb_eq in H. exact H. Qed.

End Digits.

Section RoundingBound.

Variable mB : positive.
Variable eB : Z.
Hypothesis B_canonical : canonical_mantissa prec emax mB eB = true.

Lemma bound_at_shift (e k : Z) :
0 <= k -> e + k <= eB -> bound_at mB eB e = bound_at mB eB (e + k) * 2 ^ k.
Proof.
intros Hk He. unfold bound_at.
replace (eB - e) with ((eB - (e + k)) + k) by lia.
rewrite Z.pow_add_r by lia. lia.
Qed.

Lemma fexp_digits_below (m e : Z) :
0 <= m -> e <= eB -> m <= bound_at mB eB e ->
fexp prec emax (Zdigits2 m + e) <= eB.
Proof.
intros Hm He Hle.
pose proof (canonical_fexp _ _ B_canonical) as Hc.
rewrite <- Hc. clear Hc.
apply fexp_le.
assert (Zdigits2 m <= Zdigits2 (bound_at mB eB e)) by (apply Zdigits2_le; lia).
unfold bound_at in H. rewrite Zdigits2_mul_pow2 in H by lia. lia.
Qed.

Lemma loc_of_shr_record_of_loc (m : Z) (l : location) :
loc_of_shr_record (shr_record_of_loc m l) = l.
Proof. destruct l as [ | [ | | ]]; reflexivity. Qed.

Lemma loc_exact_of_bits (mrs : shr_record) :
shr_r mrs = false -> shr_s mrs = false -> loc_of_shr_record mrs = loc_Exact.
Proof. destruct mrs as [m r s]. simpl. intros -> ->. reflexivity. Qed.

Lemma shr_m_of_loc (m : Z) (l : location) : shr_m (shr_record_of_loc m l) = m.
Proof. destruct l as [ | [ | | ]]; reflexivity. Qed.

Lemma shr_fexp_below (m e : Z) (l : location) (mrs : shr_record) (e' : Z) :
0 <= m -> e <= eB -> m <= bound_at mB eB e ->
shr_fexp prec emax m e l = (mrs, e') ->
e' <= eB /\ 0 <= shr_m mrs <= bound_at mB eB e' /\
(shr_m mrs = bound_at mB eB e' ->
 m = bound_at mB eB e /\ (l = loc_Exact -> loc_of_shr_record mrs = loc_Exact)).
Proof.
intros Hm He Hle. unfold shr_fexp, shr.
pose proof (fexp_digits_below m e Hm He Hle) as Hf.
destruct (fexp prec emax (Zdigits2 m + e) - e) as [ | p | p] eqn:Hn;
  intro Heq; inversion Heq; subst mrs e'; clear Heq.
- rewrite shr_m_of_loc, loc_of_shr_record_of_loc. repeat split; auto; lia.
- assert (Hp : Z.of_nat (Pos.to_nat p) = Z.pos p) by apply positive_nat_Z.
  assert (H2 : 0 < 2 ^ Z.pos p) by (apply Z.pow_pos_nonneg; lia).
  assert (He' : e + Z.pos p <= eB) by lia.
  pose proof (bound_at_shift e (Z.pos p) ltac:(lia) He') as Hsh.
  rewrite iter_pos_nat, shr_iter_m, Hp by (rewrite shr_m_of_loc; exact Hm).
  rewrite shr_m_of_loc.
  assert (Hq : m / 2 ^ Z.pos p <= bound_at mB eB (e + Z.pos p)).
  { apply Z.div_le_upper_bound; lia. }
  split; [exact He' | ]. split.
  + split; [apply Z.div_pos; lia | exact Hq].
  + intro Heq.
    assert (Hm' : m = bound_at mB eB e).
    { pose proof (Z.mul_div_le m (2 ^ Z.pos p) H2). nia. }
    split; [exact Hm' | ]. intros ->.
    destruct (shr_iter_exact (Pos.to_nat p) (shr_record_of_loc m loc_Exact))
      as [Hr Hs]; simpl; auto.
    * rewrite Hp, Hm', Hsh. apply Z.mod_mul. lia.
    * apply loc_exact_of_bits; assumption.
- rewrite shr_m_of_loc, loc_of_shr_record_of_loc. repeat split; auto; lia.
Qed.

End RoundingBound.

Section RoundBelow.

Variable mB : positive.
Variable eB : Z.
Hypothesis B_bounded : bounded prec emax mB eB = true.

Lemma bounded_canonical : canonical_mantissa prec emax mB eB = true.
Proof. unfold bounded in B_bounded. apply andb_prop in B_bounded. tauto. Qed.

Lemma bounded_emax : eB <= emax - prec.
Proof.
unfold bounded in B_bounded. apply andb_prop in B_bounded.
destruct B_bounded as [_ H]. apply Z.leb_le in H. exact H.
Qed.

Lemma round_nearest_even_range (m : Z) (l : location) :
m <= round_nearest_even m l <= m + 1.
Proof.
destruct l as [ | [ | | ]]; simpl; try lia.
destruct (Z.even m); lia.
Qed.

Lemma binary_round_aux_below (mx ex : Z) (lx : location) :
0 <= mx -> ex <= eB -> mx <= bound_at mB eB ex ->
(mx = bound_at mB eB ex -> lx = loc_Exact) ->
below mB eB (binary_round_aux prec emax false mx ex lx).
Proof.
intros Hm He Hle Hex. unfold binary_round_aux.
pose proof bounded_canonical as Hc. pose proof bounded_emax as Hmax.
destruct (shr_fexp prec emax mx ex lx) as [mrs1 e1] eqn:H1.
destruct (shr_fexp_below mB eB Hc mx ex lx mrs1 e1 Hm He Hle H1)
  as (He1 & Hm1 & Heq1).
set (m2 := round_nearest_even (shr_m mrs1) (loc_of_shr_record mrs1)).
assert (Hm2 : 0 <= m2 <= bound_at mB eB e1).
{ pose proof (round_nearest_even_range (shr_m mrs1) (loc_of_shr_record mrs1))
    as Hr. fold m2 in Hr.
  destruct (Z.eq_dec (shr_m mrs1) (bound_at mB eB e1)) as [Heq | Hne].
  - destruct (Heq1 Heq) as [Hmx Hloc]. specialize (Hloc (Hex Hmx)).
    unfold m2. rewrite Hloc. simpl. lia.
  - lia. }
destruct (shr_fexp prec emax m2 e1 loc_Exact) as [mrs2 e2] eqn:H2.
destruct (shr_fexp_below mB eB Hc m2 e1 loc_Exact mrs2 e2
            ltac:(lia) He1 ltac:(lia) H2) as (He2 & Hm3 & _).
destruct (shr_m mrs2) as [ | m3 | m3] eqn:Hs.
- exact I.
- destruct (Z.leb_spec e2 (emax - prec)) as [_ | Hgt]; [ | lia].
  simpl. split; lia.
- lia.
Qed.

(** [below] as the comparison of floats. *)
Lemma below_SFleb (r : spec_float) :
below mB eB r -> SFleb r (S754_finite false mB eB) = true.
Proof.
destruct r as [[ | ] | | | [ | ] m e]; simpl; try tauto; try reflexivity.
intros [He Hm]. unfold SFleb, SFcompare.
  destruct (Z.compare_spec e eB) as [Heq | Hlt | Hgt]; try reflexivity; try lia.
  subst e. unfold bound_at in Hm. rewrite Z.sub_diag in Hm. simpl in Hm.
  rewrite Pos.compare_cont_spec. simpl.
  destruct (Pos.compare_spec m mB); try reflexivity. lia.
Qed.

Lemma below_nonneg (r : spec_float) :
below mB eB r -> SFleb (S754_zero false) r = true.
Proof. destruct r as [[ | ] | | | [ | ] m e]; simpl; try tauto; reflexivity. Qed.

End RoundBelow.

Section Operations.

Variable mB : positive.
Variable eB : Z.
Hypothesis B_bounded : bounded prec emax mB eB = true.

Lemma new_location_zero (nb : Z) : new_location nb 0 = loc_Exact.
Proof. unfold new_location. destruct (Z.even nb); reflexivity. Qed.

(** The quotient of two positive integers, when it is at most the bound. *)
Lemma SFdiv_below (a b : positive) :
eB <= 0 ->
fexp prec emax (Zdigits2 (Z.pos a) - Zdigits2 (Z.pos b)) <= eB ->
Z.pos a * 2 ^ (- eB) <= Z.pos mB * Z.pos b ->
below mB eB (SFdiv prec emax (S754_finite false a 0) (S754_finite false b 0)).
Proof.
intros HeB Hf Hle. unfold SFdiv, SFdiv_core_binary.
rewrite !Z.add_0_r, Z.sub_diag.
set (e' := Z.min (fexp prec emax (Zdigits2 (Z.pos a) - Zdigits2 (Z.pos b))) 0).
assert (He' : e' <= eB) by (unfold e'; lia).
assert (Hs : 0 <= 0 - e') by lia.
set (m' := match 0 - e' with
           | 0 => Z.pos a
           | Z.pos _ => Z.shiftl (Z.pos a) (0 - e')
           | Z.neg _ => 0
           end).
assert (Hm' : m' = Z.pos a * 2 ^ (0 - e')).
{ unfold m'. destruct (0 - e') as [ | p | p] eqn:Hd.
  - simpl. lia.
  - apply Z.shiftl_mul_pow2. lia.
  - lia. }
clearbody m'. 
pose proof (Z_div_mod m' (Z.pos b) ltac:(lia)) as Hdm.
destruct (Z.div_eucl m' (Z.pos b)) as [q r]. destruct Hdm as [Hq Hr].
assert (H2 : 0 < 2 ^ (eB - e')) by (apply Z.pow_pos_nonneg; lia).
assert (H3 : 0 < 2 ^ (- eB)) by (apply Z.pow_pos_nonneg; lia).
assert (Hpow : 2 ^ (0 - e') = 2 ^ (- eB) * 2 ^ (eB - e')).
{ rewrite <- Z.pow_add_r by lia. f_equal. lia. }
assert (Hub : m' <= bound_at mB eB e' * Z.pos b).
{ unfold bound_at. rewrite Hm', Hpow. nia. }
simpl xorb.
apply binary_round_aux_below; auto.
- assert (0 <= m') by (rewrite Hm'; apply Z.mul_nonneg_nonneg; lia). nia.
- nia.
- intro Heq. assert (r = 0) by nia. subst r. apply new_location_zero.
Qed.

(** The product of a float that is at most 1.0 with the bound. *)
Lemma SFmul_below (x : spec_float) :
eB <= 0 ->
below (Z.to_pos (2 ^ 52)) (-52) x ->
below mB eB (SFmul prec emax x (S754_finite false mB eB)).
Proof.
intros HeB Hx.
destruct x as [[ | ] | | | [ | ] mx ex]; cbn [below] in Hx; try tauto.
destruct Hx as [Hex Hmx]. unfold SFmul. simpl xorb.
unfold bound_at in Hmx.
  assert (H2 : 0 < 2 ^ (- 52 - ex)) by (apply Z.pow_pos_nonneg; lia).
  assert (Hp : Z.pos (Z.to_pos (2 ^ 52)) * 2 ^ (-52 - ex) = 2 ^ (- ex)).
  { rewrite Z2Pos.id by (apply Z.pow_pos_nonneg; lia).
    rewrite <- Z.pow_add_r by lia. f_equal. lia. }
  rewrite Hp in Hmx.
  assert (Hb : bound_at mB eB (ex + eB) = Z.pos mB * 2 ^ (- ex)).
  { unfold bound_at. f_equal. f_equal. lia. }
  apply binary_round_aux_below; auto.
  + lia.
  + lia.
  + rewrite Hb, Pos2Z.inj_mul. nia.
Qed.

End Operations.

(** * The percentage [round((matches/total)*100, 2)] *)

Lemma float_100_repr : float_100 = S754_finite false mant_100 (-46).
Proof. vm_compute. reflexivity. Qed.

Lemma float_of_int_100 : float_of_int 100 = S754_finite false mant_100 (-46).
Proof. vm_compute. reflexivity. Qed.

Lemma one_bounded : bounded prec emax mant_one (-52) = true.
Proof. vm_compute. reflexivity. Qed.

Lemma hundred_bounded : bounded prec emax mant_100 (-46) = true.
Proof. vm_compute. reflexivity. Qed.

Lemma below_not_infinity (mB : positive) (eB : Z) (q : spec_float) :
  below mB eB q ->
  match q with S754_infinity _ => Raise OverflowError | _ => Ok q end = Ok q.
Proof. destruct q as [ | s | | ]; simpl; tauto. Qed.

(** [matches / total] is a float in [0.0, 1.0]. *)
Lemma py_truediv_below_one (m t : Z) :
  0 <= m <= t -> 0 < t ->
  exists q, py_truediv m t = Ok q /\ below mant_one (-52) q.
Proof.
  intros Hm Ht. destruct t as [ | tp | tp]; try lia.
  destruct m as [ | mp | mp]; try lia.
  - exists (S754_zero false). split; [reflexivity | exact I].
  - unfold py_truediv.
    change (Z.pos mp <? 0) with false. change (Z.pos tp <? 0) with false.
    change (Z.to_pos (Z.abs (Z.pos mp))) with mp.
    change (Z.to_pos (Z.abs (Z.pos tp))) with tp.
    assert (Hb : below mant_one (-52)
                   (SFdiv prec emax (S754_finite false mp 0)
                          (S754_finite false tp 0))).
    { apply SFdiv_below.
      - exact one_bounded.
      - lia.
      - assert (Zdigits2 (Z.pos mp) <= Zdigits2 (Z.pos tp))
          by (apply Zdigits2_le; lia).
        unfold fexp, SpecFloat.emin, prec, emax. lia.
      - change (Z.pos mant_one) with (2 ^ 52). change (- -52) with 52. lia. }
    eexists. split; [ | exact Hb].
    cbv zeta. apply (below_not_infinity _ _ _ Hb).
Qed.

Lemma div_half_even_range (n d k : Z) :
  0 < d -> 0 <= n <= k * d -> 0 <= div_half_even n d <= k.
Proof.
  intros Hd Hn. unfold div_half_even.
  pose proof (Z.div_mod n d ltac:(lia)) as Hdm.
  pose proof (Z.mod_pos_bound n d Hd) as Hr.
  assert (Hq : 0 <= n / d <= k).
  { split; [apply Z.div_pos; lia | ]. apply Z.div_le_upper_bound; lia. }
  destruct (Z.eq_dec (n / d) k) as [Heq | Hne].
  - assert (Hz : n mod d = 0) by nia. rewrite Hz.
    replace (2 * 0 ?= d) with Lt by (symmetry; apply Z.compare_lt_iff; lia).
    lia.
  - destruct (2 * (n mod d) ?= d); try lia.
    destruct (Z.even (n / d)); lia.
Qed.

(** Rounding to two decimals keeps a float within [0.0, 100.0]. *)
Lemma py_round_below_100 (y : spec_float) :
  below mant_100 (-46) y -> below mant_100 (-46) (py_round y 2).
Proof.
  destruct y as [[ | ] | | | [ | ] my ey]; cbn [below]; try tauto.
  intros [Hey Hmy]. unfold py_round.
  change (10 ^ Z.of_nat 2) with 100.
  destruct ey as [ | p | p]; try lia.
  assert (H2 : 0 < 2 ^ Z.pos p) by (apply Z.pow_pos_nonneg; lia).
  assert (Hn : 0 <= div_half_even (Z.pos my * 100) (2 ^ Z.pos p) <= 10000).
  { apply div_half_even_range; [exact H2 | ].
    unfold bound_at in Hmy.
    assert (Hsplit : 2 ^ Z.pos p = 2 ^ 46 * 2 ^ (-46 - Z.neg p)).
    { rewrite <- Z.pow_add_r by lia. f_equal. lia. }
    assert (0 < 2 ^ (-46 - Z.neg p)) by (apply Z.pow_pos_nonneg; lia).
    rewrite Hsplit. change (Z.pos mant_100) with (100 * 2 ^ 46) in Hmy.
    change (2 ^ 46) with 70368744177664 in *. nia. }
  destruct (div_half_even (Z.pos my * 100) (2 ^ Z.pos p)) as [ | n | n];
    try lia; try exact I.
  change (Z.to_pos 100) with 100%positive.
  apply SFdiv_below.
  - exact hundred_bounded.
  - lia.
  - assert (Hd : Zdigits2 (Z.pos n) <= Zdigits2 10000)
      by (apply Zdigits2_le; lia).
    change (Zdigits2 10000) with 14 in Hd. change (Zdigits2 100) with 7.
    unfold fexp, SpecFloat.emin, prec, emax. lia.
  - change (- -46) with 46. change (Z.pos mant_100) with (100 * 2 ^ 46).
    change (2 ^ 46) with 70368744177664. lia.
Qed.

(** The percentage of a result in range is a float in [0.0, 100.0]. *)
Lemma match_percent_below_100 (m t : Z) :
  0 <= m <= t -> 0 < t ->
  exists q,
    py_truediv m t = Ok q /\
    below mant_100 (-46) (py_round (float_mul q (float_of_int 100)) 2).
Proof.
  intros Hm Ht.
  destruct (py_truediv_below_one m t Hm Ht) as (q & Hq & Hb).
  exists q. split; [exact Hq | ].
  apply py_round_below_100. rewrite float_of_int_100. unfold float_mul.
  apply SFmul_below; [exact hundred_bounded | lia | exact Hb].
Qed.

(** * Equality of trees *)

Section EqualityLemmas.
Variables eq1 eq2 : value -> value -> bool.

Lemma list_eq_map (f : value -> value) (xs ys : list value) :
  Forall (fun x => forall y, eq1 x y = eq2 (f x) (f y)) xs ->
  list_eq eq1 xs ys = list_eq eq2 (map f xs) (map f ys).
Proof.
  intro H. revert ys.
  induction H as [ | x xs Hx _ IH]; intros [ | y ys]; simpl; auto.
  rewrite Hx, IH. reflexivity.
Qed.

Lemma dict_get_map_values (f : value -> value) (e : dict) (k : string) :
  dict_get (map (fun kv => (fst kv, f (snd kv))) e) k =
  option_map f (dict_get e k).
Proof.
  induction e as [ | [k' v] e IH]; simpl; auto.
  destruct (String.eqb k k'); auto.
Qed.

Lemma items_in_map (f : value -> value) (e items : dict) :
  Forall (fun kv => forall y, eq1 (snd kv) y = eq2 (f (snd kv)) (f y))
         items ->
  items_in eq1 e items =
  items_in eq2 (map (fun kv => (fst kv, f (snd kv))) e)
           (map (fun kv => (fst kv, f (snd kv))) items).
Proof.
  induction 1 as [ | [k v] items Hv _ IH]; simpl; auto.
  rewrite dict_get_map_values, IH.
  destruct (dict_get e k) as [w | ]; simpl; auto.
  simpl in Hv. rewrite Hv. reflexivity.
Qed.

Lemma list_eq_impl (xs ys : list value) :
  Forall (fun x => forall y, eq1 x y = true -> eq2 x y = true) xs ->
  list_eq eq1 xs ys = true -> list_eq eq2 xs ys = true.
Proof.
  intro H. revert ys.
  induction H as [ | x xs Hx _ IH]; intros [ | y ys]; simpl; auto.
  intro Hxy. apply andb_prop in Hxy. destruct Hxy as [H1 H2].
  rewrite (Hx _ H1), (IH _ H2). reflexivity.
Qed.

Lemma items_in_impl (e items : dict) :
  Forall (fun kv => forall y, eq1 (snd kv) y = true -> eq2 (snd kv) y = true)
         items ->
  items_in eq1 e items = true -> items_in eq2 e items = true.
Proof.
  induction 1 as [ | [k v] items Hv _ IH]; simpl; auto.
  intro Hi. apply andb_prop in Hi. destruct Hi as [H1 H2].
  rewrite (IH H2), andb_true_r.
  destruct (dict_get e k) as [w | ]; [ | discriminate].
  apply Hv, H1.
Qed.

Lemma list_eq_refl (xs : list value) :
  Forall (fun x => eq1 x x = true) xs -> list_eq eq1 xs xs = true.
Proof.
  induction 1 as [ | x xs Hx _ IH]; simpl; auto.
  rewrite Hx, IH. reflexivity.
Qed.

Lemma items_in_refl (d items : dict) :
  (forall k v, In (k, v) items ->
               dict_get d k = Some v /\ eq1 v v = true) ->
  items_in eq1 d items = true.
Proof.
  induction items as [ | [k v] items IH]; simpl; auto.
  intro H. destruct (H k v (or_introl eq_refl)) as [Hget Hv].
  rewrite Hget, Hv, IH; auto.
Qed.
End EqualityLemmas.

Lemma bool_eqb_b2z (x y : bool) : Bool.eqb x y = Z.eqb (b2z x) (b2z y).
Proof. destruct x, y; reflexivity. Qed.

(** [==] is type-sensitive equality once Booleans are read as ints. *)
Lemma py_eq_as_number (a b : value) :
  py_eq a b = deep_equal (as_number a) (as_number b).
Proof.
  revert b.
  induction a as [ | x | x | f | s | xs IH | d IH] using value_ind;
    intros [ | y | y | g | t | ys | e]; simpl; auto using bool_eqb_b2z.
  - apply list_eq_map, IH.
  - unfold dict_eq. rewrite !length_map. f_equal.
    apply items_in_map, IH.
Qed.

(** Type-sensitive equality implies [==]. *)
Lemma deep_equal_py_eq (a b : value) :
  deep_equal a b = true -> py_eq a b = true.
Proof.
  revert b.
  induction a as [ | x | x | f | s | xs IH | d IH] using value_ind;
    intros [ | y | y | g | t | ys | e]; simpl; auto; try discriminate.
  - apply list_eq_impl, IH.
  - unfold dict_eq. intro H. apply andb_prop in H. destruct H as [H1 H2].
    rewrite H1. simpl. revert H2. apply items_in_impl, IH.
Qed.

Lemma SFeqb_refl (f : spec_float) : f <> S754_nan -> SFeqb f f = true.
Proof.
  destruct f as [s | [ | ] | | [ | ] m e]; intro H; try reflexivity;
    try congruence;
    unfold SFeqb, SFcompare; rewrite Z.compare_refl, Pos.compare_cont_refl;
    reflexivity.
Qed.

Lemma existsb_key (k : string) (ks : list string) :
  In k ks -> existsb (String.eqb k) ks = true.
Proof.
  intro H. apply existsb_exists. exists k. split; [exact H | ].
  apply String.eqb_refl.
Qed.

(** With unique keys, [d[k]] is the value of the entry of key [k]. *)
Lemma dict_get_unique (d : dict) (k : string) (v : value) :
  unique_keys (map fst d) = true -> In (k, v) d -> dict_get d k = Some v.
Proof.
  induction d as [ | [k' v'] d IH]; simpl; [tauto | ].
  intros Hu Hin. apply andb_prop in Hu. destruct Hu as [Hk Hu].
  destruct Hin as [Heq | Hin].
  - inversion Heq; subst. rewrite String.eqb_refl. reflexivity.
  - destruct (String.eqb_spec k k') as [-> | Hne]; [ | auto].
    rewrite existsb_key in Hk; [discriminate | ].
    apply in_map_iff. exists (k', v). auto.
Qed.

(** A NaN is not equal to itself, which is why [well_formed] leaves it
    out: [score_accuracy(nan, nan)] goes through [compare_json]. *)
Example score_accuracy_nan :
  score_accuracy (VFloat S754_nan) (VFloat S754_nan) =
  Ok (VDict [("exact_match", VInt 0);
             ("match_percent", VFloat float_zero);
             ("matches", VInt 0);
             ("total", VInt 1)]).
Proof. vm_compute. reflexivity. Qed.

Lemma deep_equal_refl (T : value) :
  well_formed T = true -> deep_equal T T = true.
Proof.
  induction T as [ | x | x | f | s | xs IH | d IH] using value_ind;
    simpl; intro Hwf.
  - reflexivity.
  - apply Bool.eqb_reflx.
  - apply Z.eqb_refl.
  - apply SFeqb_refl. intros ->. discriminate.
  - apply String.eqb_refl.
  - apply list_eq_refl. rewrite forallb_forall in Hwf.
    rewrite Forall_forall in *. auto.
  - apply andb_prop in Hwf. destruct Hwf as [Hu Hwf].
    unfold dict_eq. rewrite Nat.eqb_refl. simpl.
    apply items_in_refl. intros k v Hin. split.
    + apply dict_get_unique; assumption.
    + rewrite forallb_forall in Hwf. rewrite Forall_forall in IH.
      apply (IH (k, v) Hin), (Hwf (k, v) Hin).
Qed.

(** * Mappings *)

Lemma returns_on_entries (g : dict) :
  Forall (fun kv => forall p, exists sub,
              compare_json (snd kv) p = Ok sub /\ in_range sub) g.
Proof. apply Forall_forall. intros kv _ p. apply compare_json_returns. Qed.

Lemma returns_on_items (g : list value) :
  Forall (fun x => forall p, exists sub,
              compare_json x p = Ok sub /\ in_range sub) g.
Proof. apply Forall_forall. intros x _ p. apply compare_json_returns. Qed.

Lemma key_results_agree (p p' g : dict) (subs : list (Z * Z)) :
  (forall k, In k (dict_keys g) -> dict_get p' k = dict_get p k) ->
  Forall2 (key_result compare_json p) g subs ->
  Forall2 (key_result compare_json p') g subs.
Proof.
  intros Hagree H. induction H as [ | [k v] sub g subs Hk _ IH].
  - constructor.
  - constructor.
    + unfold key_result in *. simpl in *. rewrite Hagree; auto.
    + apply IH. intros k' Hin. apply Hagree. simpl. auto.
Qed.

(** C1. When [gold] and [pred] are both mappings, [compare_json] adds 1 to
    [total] for each key of [gold] (the presence check) and, exactly for
    the keys that are also keys of [pred], the [(matches, total)] of the
    recursive comparison of the two values; keys that are only in [pred]
    add nothing to either counter. The value of an entry of [gold] is
    [gold[k]], the keys of a mapping being unique. *)
Theorem compare_json_mapping (g p : dict) :
  (exists subs,
     Forall2 (key_contribution p) g subs /\
     compare_json (VDict g) (VDict p) =
     Ok (sumZ (map fst subs), len g + sumZ (map snd subs))) /\
  (forall p',
     (forall k, In k (dict_keys g) -> dict_get p' k = dict_get p k) ->
     compare_json (VDict g) (VDict p') = compare_json (VDict g) (VDict p)) /\
  (unique_keys (dict_keys g) = true ->
   forall k gold_k, In (k, gold_k) g -> dict_getitem g k = Ok gold_k).
Proof.
  destruct (key_results_exist compare_json p g (returns_on_entries g))
    as (subs & Hsubs & _).
  split; [ | split].
  - exists subs. split; [exact Hsubs | ].
    cbn [compare_json]. rewrite (dict_loop_sums _ _ _ _ Hsubs).
    reflexivity.
  - intros p' Hagree.
    pose proof (key_results_agree p p' g subs Hagree Hsubs) as Hsubs'.
    cbn [compare_json].
    rewrite (dict_loop_sums _ _ _ _ Hsubs), (dict_loop_sums _ _ _ _ Hsubs').
    reflexivity.
  - intros Hu k gold_k Hin. unfold dict_getitem.
    rewrite (dict_get_unique g k gold_k Hu Hin). reflexivity.
Qed.

Lemma compare_json_mapping_witness :
  compare_json tree_a1_b2 (VDict [("a", VInt 1); ("c", VInt 3)]) =
  compare_json tree_a1_b2 tree_a1.
Proof.
  apply (proj1 (proj2 (compare_json_mapping
                         [("a", VInt 1); ("b", VInt 2)] [("a", VInt 1)]))).
  intros k Hk. simpl in Hk.
  destruct Hk as [<- | [<- | []]]; reflexivity.
Defined.

(** C2, as amended. [score_accuracy({a:1, b:2}, {a:1})] has [matches = 1]
    and [total = 3]: two presence checks and the comparison of the values
    under [a]; hence [match_percent = 33.33]. *)
Theorem score_mapping_asymmetry :
  compare_json tree_a1_b2 tree_a1 = Ok (1, 3) /\
  score_accuracy tree_a1_b2 tree_a1 =
  Ok (VDict [("exact_match", VInt 0);
             ("match_percent", VFloat (decimal_literal 3333 2));
             ("matches", VInt 1);
             ("total", VInt 3)]).
Proof. split; vm_compute; reflexivity. Qed.

(** C2, as stated: [matches = 1], [total = 2] and [match_percent = 50.0]
    is not what [score_accuracy({a:1, b:2}, {a:1})] returns. *)
Lemma score_mapping_asymmetry_not_half :
  ~ (compare_json tree_a1_b2 tree_a1 = Ok (1, 2) /\
     score_accuracy tree_a1_b2 tree_a1 =
     Ok (VDict [("exact_match", VInt 0);
                ("match_percent", VFloat (decimal_literal 500 1));
                ("matches", VInt 1);
                ("total", VInt 2)])).
Proof. intros [H _]. vm_compute in H. discriminate. Qed.

(** C4. When [gold] is a mapping and [pred] is not, [compare_json] returns
    [(0, 1)] whatever the number of keys of [gold]; in particular for
    [{a:1}] against a string. *)
Theorem mapping_vs_other_single_mismatch (g : dict) (pred : value) :
  is_dict pred = false ->
  compare_json (VDict g) pred = Ok (0, 1) /\
  compare_json tree_a1 (VStr "not a mapping") = Ok (0, 1).
Proof.
  intro Hp. split; [ | reflexivity].
  destruct pred; try reflexivity. discriminate.
Qed.

Lemma mapping_vs_other_single_mismatch_witness :
  compare_json tree_a1_b2 (VList [VInt 1]) = Ok (0, 1).
Proof.
  apply (proj1 (mapping_vs_other_single_mismatch
                  [("a", VInt 1); ("b", VInt 2)] (VList [VInt 1])
                  eq_refl)).
Defined.

(** C10. An empty [gold] mapping gives [(0, 0)] against every mapping, so
    against a mapping that is not empty [score_accuracy] takes the branch
    [total == 0]: [exact_match] is 0 and [match_percent] is [0.0]. *)
Theorem compare_json_empty_mapping (M : dict) :
  compare_json (VDict []) (VDict M) = Ok (0, 0) /\
  (M <> [] ->
   score_accuracy (VDict []) (VDict M) =
   Ok (VDict [("exact_match", VInt 0);
              ("match_percent", VFloat float_zero);
              ("matches", VInt 0);
              ("total", VInt 0)])).
Proof.
  split; [reflexivity | ].
  intro HM. destruct M as [ | kv M]; [congruence | ]. reflexivity.
Qed.

Lemma compare_json_empty_mapping_witness :
  score_accuracy (VDict []) tree_a1 =
  Ok (VDict [("exact_match", VInt 0);
             ("match_percent", VFloat float_zero);
             ("matches", VInt 0);
             ("total", VInt 0)]).
Proof.
  apply (proj2 (compare_json_empty_mapping [("a", VInt 1)])).
  discriminate.
Defined.

(** * Sequences *)

Lemma Forall2_combine_nth (R : value * value -> Z * Z -> Prop)
  (g p : list value) (subs : list (Z * Z)) :
  Forall2 R (combine g p) subs ->
  forall i g_i p_i,
    nth_error g i = Some g_i -> nth_error p i = Some p_i ->
    exists sub, nth_error subs i = Some sub /\ R (g_i, p_i) sub.
Proof.
  revert p subs.
  induction g as [ | x g IH]; intros p subs H i g_i p_i Hg Hp.
  - destruct i; discriminate.
  - destruct p as [ | y p]; [destruct i; discriminate | ].
    simpl in H. inversion H as [ | gp sub l subs' HR Hrest]; subst.
    destruct i as [ | i]; simpl in *.
    + inversion Hg; inversion Hp; subst. exists sub. auto.
    + apply (IH p subs' Hrest i g_i p_i Hg Hp).
Qed.

(** C3. For two sequences, [compare_json] compares the elements at equal
    indices over [min(len(gold), len(pred))] positions, sums their
    [(matches, total)], and adds [abs(len(gold) - len(pred))] to [total]
    only; [[1,2,3]] against [[1,2]] gives [matches = 2], [total = 3] and
    [match_percent = 66.67]. *)
Theorem compare_json_sequences :
  (forall g p : list value,
     exists subs,
       List.length subs = Nat.min (List.length g) (List.length p) /\
       (forall i g_i p_i,
          nth_error g i = Some g_i -> nth_error p i = Some p_i ->
          exists sub,
            nth_error subs i = Some sub /\ compare_json g_i p_i = Ok sub) /\
       compare_json (VList g) (VList p) =
       Ok (sumZ (map fst subs),
           sumZ (map snd subs) + Z.abs (len g - len p))) /\
  compare_json tree_123 tree_12 = Ok (2, 3) /\
  score_accuracy tree_123 tree_12 =
  Ok (VDict [("exact_match", VInt 0);
             ("match_percent", VFloat (decimal_literal 6667 2));
             ("matches", VInt 2);
             ("total", VInt 3)]).
Proof.
  split; [ | split; vm_compute; reflexivity].
  intros g p.
  destruct (zip_results_exist compare_json g p (returns_on_items g))
    as (subs & Hsubs & _).
  exists subs. split; [ | split].
  - rewrite <- (Forall2_length Hsubs). apply length_combine.
  - intros i g_i p_i Hg Hp.
    apply (Forall2_combine_nth _ g p subs Hsubs i g_i p_i Hg Hp).
  - cbn [compare_json]. rewrite (zip_loop_sums _ _ _ _ Hsubs).
    reflexivity.
Qed.

Lemma compare_json_sequences_witness :
  exists sub, compare_json (VInt 2) (VInt 2) = Ok sub.
Proof.
  destruct (proj1 compare_json_sequences
                  [VInt 1; VInt 2; VInt 3] [VInt 1; VInt 2])
    as (subs & _ & Hnth & _).
  destruct (Hnth 1%nat (VInt 2) (VInt 2) eq_refl eq_refl) as (sub & _ & H).
  exists sub. exact H.
Defined.

(** * The last branch *)

(** C5, as amended. For every pair that is neither ([gold] a mapping) nor
    (both sequences), [compare_json] returns [total = 1], with
    [matches = 1] iff [gold == pred]; this equality is the type-sensitive
    deep equality of the two trees once each Boolean is read as the number
    1 or 0, so it holds whenever the trees are equal type-sensitively, and
    a number never equals a string. *)
Theorem compare_json_else_branch (gold pred : value) :
  else_case gold pred = true ->
  compare_json gold pred = Ok (if py_eq gold pred then 1 else 0, 1) /\
  py_eq gold pred = deep_equal (as_number gold) (as_number pred) /\
  (deep_equal gold pred = true -> py_eq gold pred = true) /\
  (is_number gold = true -> is_str pred = true -> py_eq gold pred = false) /\
  (is_str gold = true -> is_number pred = true -> py_eq gold pred = false).
Proof.
  intro Hcase. split; [apply compare_json_else, Hcase | ].
  split; [apply py_eq_as_number | ].
  split; [apply deep_equal_py_eq | ].
  split; destruct gold, pred; simpl; intros; try discriminate; reflexivity.
Qed.

Lemma compare_json_else_branch_witness :
  compare_json (VInt 7) (VStr "7") = Ok (0, 1).
Proof.
  apply (proj1 (compare_json_else_branch (VInt 7) (VStr "7") eq_refl)).
Defined.

(** C5, as stated: with type-sensitive equality the Boolean [True] and
    the number [1] differ, yet [compare_json(True, 1)] counts a match. *)
Lemma else_branch_bool_matches_int :
  ~ else_branch_type_sensitive (VBool true) (VInt 1).
Proof.
  unfold else_branch_type_sensitive. intro H.
  destruct (H eq_refl) as (matches & Hcmp & Hiff).
  vm_compute in Hcmp. inversion Hcmp; subst matches.
  destruct Hiff as [Hto _]. specialize (Hto eq_refl). discriminate.
Qed.

(** * [score_accuracy] *)

Lemma float_le_zero_100 : float_le float_zero float_100 = true.
Proof. vm_compute. reflexivity. Qed.

Lemma float_le_100_100 : float_le float_100 float_100 = true.
Proof. vm_compute. reflexivity. Qed.

Lemma float_le_zero_zero : float_le float_zero float_zero = true.
Proof. vm_compute. reflexivity. Qed.

Lemma below_100_range (pct : spec_float) :
  below mant_100 (-46) pct ->
  float_le float_zero pct = true /\ float_le pct float_100 = true.
Proof.
  intro Hb. split.
  - apply (below_nonneg mant_100 (-46)), Hb.
  - rewrite float_100_repr.
    apply (below_SFleb mant_100 (-46)), Hb.
Qed.

(** C6. [score_accuracy(T, T)] is [{exact_match: 1, match_percent: 100.0}]
    for every well-formed tree [T]; more generally, when [gold] and [pred]
    are deeply equal the score is this record whatever the recursive
    comparator is, which is not run. *)
Theorem score_accuracy_reflexive :
  (forall T,
     well_formed T = true ->
     score_accuracy T T =
     Ok (VDict [("exact_match", VInt 1);
                ("match_percent", VFloat float_100)])) /\
  (forall compare gold pred,
     deep_equal gold pred = true ->
     score_accuracy_with compare gold pred =
     Ok (VDict [("exact_match", VInt 1);
                ("match_percent", VFloat float_100)])).
Proof.
  assert (Hshort : forall compare gold pred,
             deep_equal gold pred = true ->
             score_accuracy_with compare gold pred =
             Ok (VDict [("exact_match", VInt 1);
                        ("match_percent", VFloat float_100)])).
  { intros compare gold pred Heq. unfold score_accuracy_with.
    rewrite (deep_equal_py_eq _ _ Heq). reflexivity. }
  split; [ | exact Hshort].
  intros T Hwf. apply Hshort, deep_equal_refl, Hwf.
Qed.

Lemma score_accuracy_reflexive_witness :
  score_accuracy tree_a1_b2 tree_a1_b2 =
  Ok (VDict [("exact_match", VInt 1); ("match_percent", VFloat float_100)]) /\
  score_accuracy_with (fun _ _ => Raise ZeroDivisionError)
                      (VList [VInt 1; VFloat float_100])
                      (VList [VFloat (decimal_literal 10 1); VInt 100]) =
  Ok (VDict [("exact_match", VInt 1); ("match_percent", VFloat float_100)]).
Proof.
  split.
  - apply (proj1 score_accuracy_reflexive tree_a1_b2). reflexivity.
  - apply (proj2 score_accuracy_reflexive). vm_compute. reflexivity.
Defined.

(** The range of both results, shared by the theorems below. *)
Lemma results_in_range (gold pred : value) :
  (exists matches total,
     compare_json gold pred = Ok (matches, total) /\
     0 <= matches <= total) /\
  (exists entries match_percent,
     score_accuracy gold pred = Ok (VDict entries) /\
     dict_get entries "match_percent" = Some (VFloat match_percent) /\
     float_le float_zero match_percent = true /\
     float_le match_percent float_100 = true).
Proof.
  destruct (compare_json_returns gold pred) as ([m t] & Hcmp & Hr).
  unfold in_range in Hr. simpl in Hr.
  split; [exists m, t; auto | ].
  unfold score_accuracy, score_accuracy_with.
  destruct (py_eq gold pred).
  - eexists. eexists. split; [reflexivity | ]. split; [reflexivity | ].
    split; [apply float_le_zero_100 | apply float_le_100_100].
  - rewrite Hcmp. cbn [bind].
    destruct (Z.gtb_spec t 0) as [Ht | Ht].
    + destruct (match_percent_below_100 m t Hr ltac:(lia)) as (q & Hq & Hb).
      rewrite Hq. cbn [bind].
      eexists. eexists. split; [reflexivity | ]. split; [reflexivity | ].
      apply below_100_range, Hb.
    + cbn [bind].
      eexists. eexists. split; [reflexivity | ]. split; [reflexivity | ].
      split; [apply float_le_zero_zero | apply float_le_zero_100].
Qed.

(** C7. The [(matches, total)] of [compare_json] satisfies
    [0 <= matches <= total], and the [match_percent] of [score_accuracy]
    satisfies [0.0 <= match_percent <= 100.0], for every pair of trees. *)
Theorem compare_score_range (gold pred : value) :
  (exists matches total,
     compare_json gold pred = Ok (matches, total) /\
     0 <= matches <= total) /\
  (exists entries match_percent,
     score_accuracy gold pred = Ok (VDict entries) /\
     dict_get entries "match_percent" = Some (VFloat match_percent) /\
     float_le float_zero match_percent = true /\
     float_le match_percent float_100 = true).
Proof. apply results_in_range. Qed.

(** * Termination *)


Lemma dict_get_In (d : dict) (k : string) (v : value) :
  dict_get d k = Some v -> In (k, v) d.
Proof.
  induction d as [ | [k' v'] d IH]; simpl; [discriminate | ].
  destruct (String.eqb_spec k k') as [-> | Hne].
  - intro H. inversion H. auto.
  - auto.
Qed.




Section BodyCalls.
Variables self other : value -> value -> result (Z * Z).


End BodyCalls.


(** * The recursion limit *)






Section WithinLimit.
Variable in_call : string.
Variable in_comparison : string.


Section LimitedCalls.
Variable self : value -> value -> result (Z * Z).
Variable e : exception.
Hypothesis self_limited :
  forall g p, self g p = compare_json g p \/ self g p = Raise e.



End LimitedCalls.



Section LimitedEquality.
Variable eq : value -> value -> result bool.
Variable e : exception.


End LimitedEquality.




End WithinLimit.




(** * Batch evaluation *)

Section BatchLemmas.
Variable run_node : string -> node_run.
Variable json_loads : string -> result value.
Variable strip : string -> string.
Variable call_llm_to_generate_ast_gemini : string -> result value.
Variable score_routine : value -> value -> result value.
Hypothesis node_json : node_prints_json run_node json_loads.


(** The reference producer returns a tree, also when the parser fails. *)
Lemma parse_with_node_returns (sql : string) :
  exists gold_ast,
    parse_with_node run_node json_loads strip sql = Ok gold_ast.
Proof.
  unfold parse_with_node.
  destruct (run_node sql) as [stdout | stderr] eqn:Hrun.
  - apply (node_json sql stdout Hrun).
  - destruct (json_loads stderr) as [ast | e]; eauto.
Qed.

Lemma batch_item_returns (sql : string) :
  exists record,
    batch_item run_node json_loads strip call_llm_to_generate_ast_gemini
               score_routine sql = Ok record.
Proof.
  unfold batch_item.
  destruct (parse_with_node_returns sql) as (gold_ast & Hgold).
  rewrite Hgold. cbn [bind]. eauto.
Qed.

Lemma batch_loop_returns (test_sqls : list string) :
  forall results,
  exists records,
    batch_loop run_node json_loads strip call_llm_to_generate_ast_gemini
               score_routine test_sqls results = Ok (results ++ records) /\
    Forall2 (fun sql record =>
               batch_item run_node json_loads strip
                          call_llm_to_generate_ast_gemini score_routine sql =
               Ok record)
            test_sqls records.
Proof.
  induction test_sqls as [ | sql rest IH]; intro results.
  - exists []. split; [ | constructor]. simpl. now rewrite app_nil_r.
  - destruct (batch_item_returns sql) as (record & Hrecord).
    destruct (IH (results ++ [record])) as (records & Hloop & Hall).
    exists (record :: records). split; [ | constructor; assumption].
    cbn [batch_loop]. rewrite Hrecord.
    cbn [bind]. rewrite Hloop, <- app_assoc. reflexivity.
Qed.
End BatchLemmas.

Lemma Forall2_nth_error {A B : Type} (R : A -> B -> Prop)
  (l : list A) (l' : list B) :
  Forall2 R l l' ->
  forall i x, nth_error l i = Some x ->
              exists y, nth_error l' i = Some y /\ R x y.
Proof.
  induction 1 as [ | a b l l' Hab _ IH]; intros [ | i] x Hx;
    simpl in *; try discriminate.
  - inversion Hx; subst. eauto.
  - apply IH, Hx.
Qed.

Section BatchFailures.
Variable run_node : string -> node_run.
Variable json_loads : string -> result value.
Variable strip : string -> string.
Variable call_llm_to_generate_ast_gemini : string -> result value.
Variable score_routine : value -> value -> result value.

(** The reference producer raises only what [json.loads] raises on the
    output of a node process that exited with status 0. *)
Lemma parse_with_node_raises (sql : string) (e : exception) :
  parse_with_node run_node json_loads strip sql = Raise e <->
  exists stdout, run_node sql = Completed stdout /\
                 json_loads stdout = Raise e.
Proof.
  unfold parse_with_node.
  destruct (run_node sql) as [stdout | stderr].
  - split; [intro H; exists stdout; auto | ].
    intros (out & Hout & H). inversion Hout; subst out. exact H.
  - split.
    + destruct (json_loads stderr); discriminate.
    + intros (out & Hout & _). discriminate.
Qed.

(** An item whose reference tree was built is recorded, and the score of
    the record is the error record as soon as the candidate producer or the
    scoring routine raises. *)
Lemma batch_item_of_gold (sql : string) (gold_ast : value) :
  parse_with_node run_node json_loads strip sql = Ok gold_ast ->
  exists score,
    batch_item run_node json_loads strip call_llm_to_generate_ast_gemini
               score_routine sql =
    Ok (VDict [("sql", VStr sql); ("score", score)]) /\
    forall e,
      (call_llm_to_generate_ast_gemini sql = Raise e \/
       exists llm_ast,
         call_llm_to_generate_ast_gemini sql = Ok llm_ast /\
         score_routine gold_ast llm_ast = Raise e) ->
      score = VDict [("error", VStr (str e));
                     ("exact_match", VInt 0);
                     ("match_percent", VFloat float_zero)].
Proof.
  intro Hgold. unfold batch_item. rewrite Hgold. cbn [bind].
  eexists. split; [reflexivity | ].
  intros e [Hraise | (llm_ast & Hllm & Hraise)].
  - rewrite Hraise. reflexivity.
  - rewrite Hllm. cbn [bind]. rewrite Hraise. reflexivity.
Qed.

Lemma batch_item_raises (sql : string) (e : exception) :
  parse_with_node run_node json_loads strip sql = Raise e ->
  batch_item run_node json_loads strip call_llm_to_generate_ast_gemini
             score_routine sql = Raise e.
Proof. intro H. unfold batch_item. rewrite H. reflexivity. Qed.

(** The loop returns one record per query when the reference producer
    returns for every query. *)
Lemma batch_loop_of_golds (test_sqls : list string) :
  (forall sql, In sql test_sqls ->
     exists gold_ast,
       parse_with_node run_node json_loads strip sql = Ok gold_ast) ->
  forall results,
  exists records,
    batch_loop run_node json_loads strip call_llm_to_generate_ast_gemini
               score_routine test_sqls results = Ok (results ++ records) /\
    Forall2 (fun sql record =>
               batch_item run_node json_loads strip
                          call_llm_to_generate_ast_gemini score_routine sql =
               Ok record)
            test_sqls records.
Proof.
  induction test_sqls as [ | sql rest IH]; intros Hgold results.
  - exists []. split; [ | constructor]. simpl. now rewrite app_nil_r.
  - destruct (Hgold sql (or_introl eq_refl)) as (gold_ast & Hg).
    destruct (batch_item_of_gold sql gold_ast Hg) as (score & Hitem & _).
    destruct (IH (fun s Hs => Hgold s (or_intror Hs))
                 (results ++ [VDict [("sql", VStr sql); ("score", score)]]))
      as (records & Hloop & Hall).
    exists (VDict [("sql", VStr sql); ("score", score)] :: records).
    split; [ | constructor; assumption].
    cbn [batch_loop]. rewrite Hitem.
    cbn [bind]. rewrite Hloop, <- app_assoc. reflexivity.
Qed.

(** The loop raises as soon as the reference producer raises for a
    query. *)
Lemma batch_loop_reference_raises (test_sqls : list string) :
  forall results sql e,
    In sql test_sqls ->
    parse_with_node run_node json_loads strip sql = Raise e ->
    exists e',
      batch_loop run_node json_loads strip call_llm_to_generate_ast_gemini
                 score_routine test_sqls results = Raise e'.
Proof.
  induction test_sqls as [ | head rest IH]; intros results sql e Hin Hraise;
    [contradiction | ].
  cbn [batch_loop].
  destruct (batch_item run_node json_loads strip
              call_llm_to_generate_ast_gemini score_routine head)
    as [item | e0] eqn:Hitem; [ | exists e0; reflexivity].
  cbn [bind]. destruct Hin as [-> | Hin].
  - rewrite (batch_item_raises sql e Hraise) in Hitem. discriminate.
  - apply (IH _ sql e Hin Hraise).
Qed.
End BatchFailures.

(** C9. In the batch loop, when the candidate producer raises for an item
    whose reference tree was built, the score record of the item holds the
    error description with [exact_match] 0 and [match_percent] 0.0,
    whatever the scoring routine is (it is not called), and an error of the
    scoring routine is recorded in the same way. A node process that fails
    gives an error-shaped reference tree; the reference producer raises
    only when the process exits with status 0 and [json.loads] rejects its
    output. The batch returns one record per input when the reference
    producer returns for every input, whatever the candidate producer does,
    and raises when the reference producer raises for one of them. *)
Theorem batch_isolates_producer_failure
  (run_node : string -> node_run)
  (json_loads : string -> result value)
  (strip : string -> string)
  (call_llm_to_generate_ast_gemini : string -> result value)
  (score_routine : value -> value -> result value)
  (test_sqls : list string) :
  (forall sql gold_ast e,
     parse_with_node run_node json_loads strip sql = Ok gold_ast ->
     (call_llm_to_generate_ast_gemini sql = Raise e \/
      exists llm_ast,
        call_llm_to_generate_ast_gemini sql = Ok llm_ast /\
        score_routine gold_ast llm_ast = Raise e) ->
     batch_item run_node json_loads strip call_llm_to_generate_ast_gemini
                score_routine sql =
     Ok (VDict [("sql", VStr sql);
                ("score", VDict [("error", VStr (str e));
                                 ("exact_match", VInt 0);
                                 ("match_percent", VFloat float_zero)])])) /\
  (forall sql stderr,
     run_node sql = CalledProcessError stderr ->
     exists gold_ast,
       parse_with_node run_node json_loads strip sql = Ok gold_ast) /\
  (forall sql e,
     parse_with_node run_node json_loads strip sql = Raise e <->
     exists stdout, run_node sql = Completed stdout /\
                    json_loads stdout = Raise e) /\
  ((forall sql, In sql test_sqls ->
      exists gold_ast,
        parse_with_node run_node json_loads strip sql = Ok gold_ast) ->
   exists results,
     batch_loop run_node json_loads strip call_llm_to_generate_ast_gemini
                score_routine test_sqls [] = Ok results /\
     List.length results = List.length test_sqls /\
     forall i sql,
       nth_error test_sqls i = Some sql ->
       exists record,
         nth_error results i = Some record /\
         batch_item run_node json_loads strip
                    call_llm_to_generate_ast_gemini score_routine sql =
         Ok record) /\
  (forall sql e,
     In sql test_sqls ->
     parse_with_node run_node json_loads strip sql = Raise e ->
     exists e',
       batch_loop run_node json_loads strip call_llm_to_generate_ast_gemini
                  score_routine test_sqls [] = Raise e').
Proof.
  split; [ | split; [ | split; [ | split]]].
  - intros sql gold_ast e Hgold Hraise.
    destruct (batch_item_of_gold run_node json_loads strip
                call_llm_to_generate_ast_gemini score_routine
                sql gold_ast Hgold) as (score & Hitem & Herr).
    rewrite Hitem, (Herr e Hraise). reflexivity.
  - intros sql stderr Hrun. unfold parse_with_node. rewrite Hrun.
    destruct (json_loads stderr) as [ast | e]; eauto.
  - apply parse_with_node_raises.
  - intro Hgold.
    destruct (batch_loop_of_golds run_node json_loads strip
                call_llm_to_generate_ast_gemini score_routine
                test_sqls Hgold []) as (records & Hloop & Hall).
    exists records. split; [exact Hloop | ]. split.
    + symmetry. apply (Forall2_length Hall).
    + intros i sql Hnth. apply (Forall2_nth_error _ _ _ Hall i sql Hnth).
  - intros sql e. apply batch_loop_reference_raises.
Qed.

Lemma batch_isolates_producer_failure_witness :
  batch_results
    (fun sql => if String.eqb sql "DROP TABLE temp_data;"
                then Completed "{}"
                else CalledProcessError "syntax error")
    (fun text => if String.eqb text "{}" then Ok (VDict [])
                 else Raise (Exception "Expecting value"))
    (fun text => text)
    (fun sql => if String.eqb sql "DROP TABLE temp_data;"
                then Raise (Exception "Expecting value")
                else Ok (VDict [("error", VStr "syntax error")]))
    ["DROP TABLE temp_data;"; "SELECT FROM;"] =
  Ok [VDict [("sql", VStr "DROP TABLE temp_data;");
             ("score", VDict [("error", VStr "Expecting value");
                              ("exact_match", VInt 0);
                              ("match_percent", VFloat float_zero)])];
      VDict [("sql", VStr "SELECT FROM;");
             ("score", VDict [("exact_match", VInt 1);
                              ("match_percent", VFloat float_100)])]].
Proof.
  unfold batch_results.
  set (run := fun sql : string =>
                if String.eqb sql "DROP TABLE temp_data;"
                then Completed "{}"
                else CalledProcessError "syntax error").
  set (loads := fun text : string =>
                  if String.eqb text "{}" then Ok (VDict [])
                  else Raise (Exception "Expecting value")).
  set (llm := fun sql : string =>
                if String.eqb sql "DROP TABLE temp_data;"
                then Raise (Exception "Expecting value")
                else Ok (VDict [("error", VStr "syntax error")])).
  set (sqls := ["DROP TABLE temp_data;"; "SELECT FROM;"]).
  assert (Hgold : forall sql, In sql sqls ->
            exists gold_ast,
              parse_with_node run loads (fun text => text) sql = Ok gold_ast).
  { intros sql [<- | [<- | []]]; eexists; reflexivity. }
  destruct (batch_isolates_producer_failure
              run loads (fun text => text) llm score_accuracy sqls)
    as (Hitem & _ & _ & Hbatch & _).
  destruct (Hbatch Hgold) as (results & Hloop & Hlen & Hnth).
  rewrite Hloop. apply f_equal.
  destruct (Hnth 0%nat "DROP TABLE temp_data;" eq_refl) as (r0 & Hr0 & Hi0).
  destruct (Hnth 1%nat "SELECT FROM;" eq_refl) as (r1 & Hr1 & Hi1).
  rewrite (Hitem "DROP TABLE temp_data;" (VDict [])
                 (Exception "Expecting value") eq_refl (or_introl eq_refl))
    in Hi0.
  vm_compute in Hi1.
  inversion Hi0; inversion Hi1; subst r0 r1.
  destruct results as [ | x [ | y [ | z results]]]; simpl in Hlen;
    try discriminate.
  simpl in Hr0, Hr1. inversion Hr0; inversion Hr1; subst. reflexivity.
Defined.

(** A node process that exits with status 0 and prints what [json.loads]
    rejects ends the batch: the error of the reference producer is raised
    outside the [try] of the loop. *)
Lemma reference_failure_ends_batch :
  batch_results
    (fun sql => if String.eqb sql "DROP TABLE temp_data;"
                then Completed "undefined"
                else Completed "{}")
    (fun text => if String.eqb text "{}" then Ok (VDict [])
                 else Raise (Exception
                               "Expecting value: line 1 column 1 (char 0)"))
    (fun text => text)
    (fun sql => Ok (VDict []))
    ["SELECT 1;"; "DROP TABLE temp_data;"; "SELECT 2;"] =
  Raise (Exception "Expecting value: line 1 column 1 (char 0)").
Proof. reflexivity. Qed.

(** * Further properties *)

(** * Equal trees under [compare_json] *)

Lemma sumZ_map_of_nat {A : Type} (f : A -> nat) (l : list A) :
  sumZ (map (fun x => Z.of_nat (f x)) l) = Z.of_nat (list_sum (map f l)).
Proof.
  induction l as [ | x l IH]; simpl; [reflexivity | ].
  rewrite IH, Nat2Z.inj_add. reflexivity.
Qed.

Lemma list_sum_add {A : Type} (f g : A -> nat) (l : list A) :
  list_sum (map (fun x => (f x + g x)%nat) l) =
  (list_sum (map f l) + list_sum (map g l))%nat.
Proof. induction l as [ | x l IH]; simpl; lia. Qed.

Lemma equal_entries (e d : dict) :
  Forall (fun kv => forall pred, py_eq (snd kv) pred = true ->
              compare_json (snd kv) pred = Ok (equal_result (snd kv))) d ->
  items_in py_eq e d = true ->
  Forall2 (key_result compare_json e) d
          (map (fun kv => equal_result (snd kv)) d).
Proof.
  induction 1 as [ | [k v] d Hv _ IH]; simpl; intro Hin; constructor.
  - unfold key_result. simpl.
    destruct (dict_get e k) as [w | ]; [ | discriminate].
    apply Hv. apply andb_prop in Hin. tauto.
  - apply IH. apply andb_prop in Hin. tauto.
Qed.

Lemma equal_items (xs ys : list value) :
  Forall (fun x => forall pred, py_eq x pred = true ->
              compare_json x pred = Ok (equal_result x)) xs ->
  list_eq py_eq xs ys = true ->
  List.length xs = List.length ys /\
  Forall2 (fun gp sub => compare_json (fst gp) (snd gp) = Ok sub)
          (combine xs ys) (map equal_result xs).
Proof.
  intro H. revert ys.
  induction H as [ | x xs Hx _ IH]; intros [ | y ys]; simpl;
    try discriminate.
  - intros _. split; [reflexivity | constructor].
  - intro Heq. apply andb_prop in Heq. destruct Heq as [Hxy Hrest].
    destruct (IH ys Hrest) as [Hlen Hall].
    split; [congruence | ]. constructor; auto.
Qed.

Lemma compare_json_equal (gold pred : value) :
  py_eq gold pred = true ->
  compare_json gold pred = Ok (equal_result gold).
Proof.
  revert pred.
  induction gold as [ | b | z | f | s | xs IH | d IH] using value_ind;
    intros pred Heq;
    try (rewrite compare_json_else by reflexivity; rewrite Heq; reflexivity).
  - destruct pred as [ | | | | | ys | ]; try discriminate.
    simpl in Heq. destruct (equal_items xs ys IH Heq) as [Hlen Hall].
    cbn [compare_json]. rewrite (zip_loop_sums _ _ _ _ Hall). cbn [bind fst snd].
    unfold len. rewrite Hlen, Z.sub_diag. unfold equal_result.
    rewrite !map_map. cbn [fst snd scalar_leaves mapping_keys].
    rewrite !sumZ_map_of_nat, list_sum_add. simpl. f_equal. f_equal; lia.
  - destruct pred as [ | | | | | | e]; try discriminate.
    simpl in Heq. unfold dict_eq in Heq. apply andb_prop in Heq.
    destruct Heq as [_ Hin].
    pose proof (equal_entries e d IH Hin) as Hall.
    cbn [compare_json]. rewrite (dict_loop_sums _ _ _ _ Hall). cbn [fst snd].
    unfold len, equal_result. rewrite !map_map.
    cbn [fst snd scalar_leaves mapping_keys].
    rewrite !sumZ_map_of_nat, list_sum_add. f_equal. f_equal; lia.
Qed.

(** X1. On well-formed trees (unique keys, no NaN), when [gold == pred],
    [compare_json] returns as [matches] the number of scalar leaves of
    [gold] and as [total] that number plus the number of mapping keys of
    [gold]: every key costs a presence check that no match pays back. This
    holds in particular for a well-formed tree against itself. *)
Theorem compare_json_of_equal_trees :
  (forall gold pred,
     well_formed gold = true ->
     well_formed pred = true ->
     py_eq gold pred = true ->
     compare_json gold pred =
     Ok (Z.of_nat (scalar_leaves gold),
         Z.of_nat (scalar_leaves gold + mapping_keys gold))) /\
  (forall T,
     well_formed T = true ->
     compare_json T T =
     Ok (Z.of_nat (scalar_leaves T),
         Z.of_nat (scalar_leaves T + mapping_keys T))).
Proof.
  split.
  - intros gold pred _ _. apply compare_json_equal.
  - intros T Hwf. apply compare_json_equal, deep_equal_py_eq, deep_equal_refl, Hwf.
Qed.

(** * Results that add up *)

Lemma sumZ_app (l1 l2 : list Z) : sumZ (l1 ++ l2) = sumZ l1 + sumZ l2.
Proof. induction l1 as [ | x l1 IH]; simpl; lia. Qed.

Lemma sumZ_nonneg_snd (subs : list (Z * Z)) :
  Forall in_range subs -> Forall (fun sub => 0 <= snd sub) subs.
Proof.
  apply Forall_impl. intros sub H. unfold in_range in H. lia.
Qed.

Lemma sumZ_zero (l : list Z) :
  Forall (fun x => 0 <= x) l -> sumZ l = 0 -> Forall (fun x => x = 0) l.
Proof.
  induction 1 as [ | x l Hx Hl IH]; simpl; intro Hs; constructor.
  - assert (0 <= sumZ l).
    { clear -Hl. induction Hl; simpl; lia. }
    lia.
  - apply IH.
    assert (0 <= sumZ l).
    { clear -Hl. induction Hl; simpl; lia. }
    lia.
Qed.

Lemma list_sum_zero {A : Type} (f : A -> nat) (l : list A) :
  Forall (fun x => f x = 0%nat) l -> list_sum (map f l) = 0%nat.
Proof. induction 1 as [ | x l Hx _ IH]; simpl; lia. Qed.

Lemma zip_totals_zero (g p : list value) (subs : list (Z * Z)) :
  Forall (fun x => forall pred m,
              compare_json x pred = Ok (m, 0) ->
              scalar_leaves x = 0%nat /\ mapping_keys x = 0%nat) g ->
  List.length g = List.length p ->
  Forall2 (fun gp sub => compare_json (fst gp) (snd gp) = Ok sub)
          (combine g p) subs ->
  Forall (fun sub => snd sub = 0) subs ->
  Forall (fun x => scalar_leaves x = 0%nat /\ mapping_keys x = 0%nat) g.
Proof.
  intro H. revert p subs.
  induction H as [ | x g Hx _ IH]; intros [ | y p] subs Hlen Hall Hz;
    simpl in *; try discriminate; constructor.
  - inversion Hall as [ | gp [m t] l subs' Hc Hrest]; subst.
    inversion Hz as [ | s l' Ht Hz']; subst. simpl in Ht, Hc. subst t.
    apply (Hx y m Hc).
  - inversion Hall as [ | gp sub l subs' Hc Hrest]; subst.
    inversion Hz; subst. apply (IH p subs'); auto.
Qed.

Lemma total_zero_weightless (gold pred : value) (m : Z) :
  compare_json gold pred = Ok (m, 0) ->
  scalar_leaves gold = 0%nat /\ mapping_keys gold = 0%nat.
Proof.
  revert pred m.
  induction gold as [ | b | z | f | s | xs IH | d IH] using value_ind;
    intros pred m Hc;
    try (rewrite compare_json_else in Hc by reflexivity; discriminate).
  - destruct pred as [ | | | | | ys | ];
      try (rewrite compare_json_else in Hc by reflexivity; discriminate).
    destruct (zip_results_exist compare_json xs ys (returns_on_items xs))
      as (subs & Hsubs & Hr).
    cbn [compare_json] in Hc. rewrite (zip_loop_sums _ _ _ _ Hsubs) in Hc.
    cbn [bind fst snd] in Hc. inversion Hc as [[Hm Ht]].
    pose proof (sumZ_in_range subs Hr) as Hs.
    assert (Hlen : List.length xs = List.length ys) by (unfold len in Ht; lia).
    assert (Hz : sumZ (map snd subs) = 0) by lia.
    assert (Hall : Forall (fun sub => snd sub = 0) subs).
    { pose proof (sumZ_zero (map snd subs)) as H0.
      rewrite Forall_map in H0. rewrite Forall_map in H0.
      apply H0; [apply sumZ_nonneg_snd, Hr | exact Hz]. }
    pose proof (zip_totals_zero xs ys subs IH Hlen Hsubs Hall) as Hw.
    simpl. split; apply list_sum_zero; revert Hw; apply Forall_impl; tauto.
  - destruct pred as [ | | | | | | e]; try discriminate.
    destruct (key_results_exist compare_json e d (returns_on_entries d))
      as (subs & Hsubs & Hr).
    cbn [compare_json] in Hc. rewrite (dict_loop_sums _ _ _ _ Hsubs) in Hc.
    cbn [fst snd] in Hc. inversion Hc as [[Hm Ht]].
    pose proof (sumZ_in_range subs Hr) as Hs.
    assert (d = []).
    { destruct d; [reflexivity | ]. unfold len in Ht.
      cbn [List.length] in Ht. rewrite Nat2Z.inj_succ in Ht. lia. }
    subst d. split; reflexivity.
Qed.

(** * The ends of the percentage scale *)

Lemma py_truediv_self (t : Z) :
  0 < t -> py_truediv t t = Ok (S754_finite false mant_one (-52)).
Proof.
  destruct t as [ | p | p]; try lia. intros _.
  unfold py_truediv.
  change (Z.pos p <? 0) with false.
  change (Z.to_pos (Z.abs (Z.pos p))) with p.
  unfold SFdiv, SFdiv_core_binary.
  rewrite !Z.add_0_r, !Z.sub_diag.
  change (Z.min (fexp prec emax 0) 0) with (-53).
  change (0 - -53) with 53.
  cbv iota.
  assert (Hd : Z.div_eucl (Z.shiftl (Z.pos p) 53) (Z.pos p) = (2 ^ 53, 0)).
  { pose proof (Z_div_mod (Z.shiftl (Z.pos p) 53) (Z.pos p) ltac:(lia)) as H.
    destruct (Z.div_eucl (Z.shiftl (Z.pos p) 53) (Z.pos p)) as [q r].
    destruct H as [Heq Hr]. rewrite Z.shiftl_mul_pow2 in Heq by lia.
    assert (q = 2 ^ 53) by nia. subst q.
    assert (r = 0) by lia. subst r. reflexivity. }
  rewrite Hd, new_location_zero. vm_compute. reflexivity.
Qed.

Lemma percent_of_one :
  py_round (float_mul (S754_finite false mant_one (-52)) (float_of_int 100)) 2
  = float_100.
Proof. vm_compute. reflexivity. Qed.

Lemma py_truediv_zero (t : Z) : 0 < t -> py_truediv 0 t = Ok (S754_zero false).
Proof. destruct t; try lia; reflexivity. Qed.

Lemma percent_of_zero :
  py_round (float_mul (S754_zero false) (float_of_int 100)) 2 = float_zero.
Proof. vm_compute. reflexivity. Qed.

(** X3. On trees that are not equal, [match_percent] is exactly [0.0]
    when [matches] is 0 and exactly [100.0] when [matches = total > 0]:
    the float division, the product and [round] add no error at the two
    ends of the scale. *)
Theorem match_percent_endpoints (gold pred : value) (matches total : Z) :
  py_eq gold pred = false ->
  compare_json gold pred = Ok (matches, total) ->
  (matches = 0 ->
   score_accuracy gold pred =
   Ok (VDict [("exact_match", VInt 0);
              ("match_percent", VFloat float_zero);
              ("matches", VInt 0);
              ("total", VInt total)])) /\
  (matches = total -> 0 < total ->
   score_accuracy gold pred =
   Ok (VDict [("exact_match", VInt 0);
              ("match_percent", VFloat float_100);
              ("matches", VInt total);
              ("total", VInt total)])).
Proof.
  intros Hne Hc. unfold score_accuracy, score_accuracy_with.
  rewrite Hne, Hc. cbn [bind]. split.
  - intros ->. destruct (Z.gtb_spec total 0) as [Ht | Ht].
    + rewrite (py_truediv_zero total Ht). cbn [bind].
      rewrite percent_of_zero. reflexivity.
    + reflexivity.
  - intros -> Ht. destruct (Z.gtb_spec total 0) as [_ | Hle]; [ | lia].
    rewrite (py_truediv_self total Ht). cbn [bind].
    rewrite percent_of_one. reflexivity.
Qed.

Lemma match_percent_endpoints_witness :
  score_accuracy (VList [VInt 1; VDict []])
                 (VList [VInt 1; VDict [("a", VInt 2)]]) =
  Ok (VDict [("exact_match", VInt 0);
             ("match_percent", VFloat float_100);
             ("matches", VInt 1);
             ("total", VInt 1)]) /\
  score_accuracy (VInt 1) (VStr "1") =
  Ok (VDict [("exact_match", VInt 0);
             ("match_percent", VFloat float_zero);
             ("matches", VInt 0);
             ("total", VInt 1)]).
Proof.
  split.
  - apply (proj2 (match_percent_endpoints
                    (VList [VInt 1; VDict []])
                    (VList [VInt 1; VDict [("a", VInt 2)]]) 1 1
                    eq_refl eq_refl)); [reflexivity | lia].
  - apply (proj1 (match_percent_endpoints (VInt 1) (VStr "1") 0 1
                    eq_refl eq_refl)). reflexivity.
Defined.

(** * Results add up over segments and entries *)

Lemma Forall2_app_combine (R : value * value -> Z * Z -> Prop)
  (g1 g2 p1 p2 : list value) (s1 s2 : list (Z * Z)) :
  List.length g1 = List.length p1 ->
  Forall2 R (combine g1 p1) s1 -> Forall2 R (combine g2 p2) s2 ->
  Forall2 R (combine (g1 ++ g2) (p1 ++ p2)) (s1 ++ s2).
Proof.
  revert p1 s1. induction g1 as [ | x g1 IH]; intros [ | y p1] s1 Hlen H1 H2;
    simpl in *; try discriminate.
  - inversion H1; subst. exact H2.
  - inversion H1; subst. simpl. constructor; auto.
Qed.

(** X4. Results add up: two sequences split at the same index are scored
    as the sum of the scores of their two parts, and a [gold] mapping whose
    entries are split in two groups as the sum of the scores of the two
    groups against the same [pred]. *)
Theorem compare_json_additive :
  (forall g1 g2 p1 p2 : list value,
     List.length g1 = List.length p1 ->
     compare_json (VList (g1 ++ g2)) (VList (p1 ++ p2)) =
     add_results (compare_json (VList g1) (VList p1))
                 (compare_json (VList g2) (VList p2))) /\
  (forall (g1 g2 : dict) (p : dict),
     compare_json (VDict (g1 ++ g2)) (VDict p) =
     add_results (compare_json (VDict g1) (VDict p))
                 (compare_json (VDict g2) (VDict p))).
Proof.
  split.
  - intros g1 g2 p1 p2 Hlen.
    destruct (zip_results_exist compare_json g1 p1 (returns_on_items g1))
      as (s1 & H1 & _).
    destruct (zip_results_exist compare_json g2 p2 (returns_on_items g2))
      as (s2 & H2 & _).
    pose proof (Forall2_app_combine _ g1 g2 p1 p2 s1 s2 Hlen H1 H2) as H12.
    cbn [compare_json].
    rewrite (zip_loop_sums _ _ _ _ H1), (zip_loop_sums _ _ _ _ H2),
      (zip_loop_sums _ _ _ _ H12).
    unfold add_results. cbn [bind fst snd].
    rewrite !map_app, !sumZ_app. unfold len. rewrite !length_app, Hlen.
    f_equal. f_equal; lia.
  - intros g1 g2 p.
    destruct (key_results_exist compare_json p g1 (returns_on_entries g1))
      as (s1 & H1 & _).
    destruct (key_results_exist compare_json p g2 (returns_on_entries g2))
      as (s2 & H2 & _).
    pose proof (Forall2_app H1 H2) as H12.
    cbn [compare_json].
    rewrite (dict_loop_sums _ _ _ _ H1), (dict_loop_sums _ _ _ _ H2),
      (dict_loop_sums _ _ _ _ H12).
    unfold add_results. cbn [bind fst snd].
    rewrite !map_app, !sumZ_app. unfold len. rewrite !length_app.
    f_equal. f_equal; lia.
Qed.

(** * Equality of numbers *)

(** Two floats are equal when both are zeros, or they are the same float
    and no NaN. *)
Lemma SFeqb_true (f g : spec_float) :
  SFeqb f g = true <->
  (is_zero f = true /\ is_zero g = true) \/ (f = g /\ f <> S754_nan).
Proof.
  split.
  - destruct f as [[ | ] | [ | ] | | [ | ] m e],
             g as [[ | ] | [ | ] | | [ | ] m' e'];
      unfold SFeqb; simpl; intro H; try discriminate H;
      try (left; split; reflexivity);
      try (right; split; [reflexivity | discriminate]);
      destruct (Z.compare_spec e e') as [-> | | ]; try discriminate H;
      rewrite Pos.compare_cont_spec in H; simpl in H;
      destruct (Pos.compare_spec m m') as [-> | | ]; try discriminate H;
      (right; split; [reflexivity | discriminate]).
  - intros [[Hf Hg] | [<- Hn]].
    + destruct f, g; try discriminate; reflexivity.
    + apply SFeqb_refl, Hn.
Qed.

Lemma SFeqb_sym (f g : spec_float) : SFeqb f g = true -> SFeqb g f = true.
Proof.
  rewrite !SFeqb_true. intros [[Hf Hg] | [<- Hn]]; auto.
Qed.

Lemma SFeqb_trans (f g h : spec_float) :
  SFeqb f g = true -> SFeqb g h = true -> SFeqb f h = true.
Proof.
  rewrite !SFeqb_true.
  intros [[Hf Hg] | [<- Hn]] [[Hg' Hh] | [<- Hn']]; auto.
Qed.

Lemma float_eq_int_SFeqb (f g : spec_float) (z : Z) :
  SFeqb f g = true -> float_eq_int f z = float_eq_int g z.
Proof.
  rewrite SFeqb_true. intros [[Hf Hg] | [<- _]]; [ | reflexivity].
  destruct f, g; try discriminate; reflexivity.
Qed.

(** A float equals at most one int. *)
Lemma float_eq_int_inj (f : spec_float) (x z : Z) :
  float_eq_int f x = true -> float_eq_int f z = true -> x = z.
Proof.
  destruct f as [s | s | | s m e]; cbn [float_eq_int]; try discriminate.
  - intros Hx Hz. apply Z.eqb_eq in Hx, Hz. congruence.
  - destruct e as [ | p | p]; intros Hx Hz; apply Z.eqb_eq in Hx, Hz;
      destruct s; try lia.
    + assert (0 < 2 ^ Z.pos p) by (apply Z.pow_pos_nonneg; lia). nia.
    + assert (0 < 2 ^ Z.pos p) by (apply Z.pow_pos_nonneg; lia). nia.
Qed.

(** What a valid float equal to the int [z] looks like. *)
Lemma float_eq_int_shape (f : spec_float) (z : Z) :
  valid_binary prec emax f = true -> float_eq_int f z = true ->
  (z = 0 /\ is_zero f = true) \/
  (z <> 0 /\ exists m e,
      f = S754_finite (z <? 0) m e /\
      e = fexp prec emax (Zdigits2 (Z.abs z)) /\
      (0 <= e -> Z.abs z = Z.pos m * 2 ^ e) /\
      (e < 0 -> Z.pos m = Z.abs z * 2 ^ (- e))).
Proof.
  destruct f as [s | s | | s m e]; cbn [float_eq_int valid_binary is_zero];
    try discriminate.
  - intros _ Hz. apply Z.eqb_eq in Hz. auto.
  - intros Hv Hz. right.
    unfold bounded in Hv. apply andb_prop in Hv. destruct Hv as [Hc _].
    apply canonical_fexp in Hc.
    assert (Ha : 0 < (if s then - z else z) /\
                 (0 <= e -> (if s then - z else z) = Z.pos m * 2 ^ e) /\
                 (e < 0 -> Z.pos m = (if s then - z else z) * 2 ^ (- e))).
    { destruct e as [ | p | p]; apply Z.eqb_eq in Hz.
      - split; [lia | ]. split; [intros _; lia | lia].
      - assert (0 < 2 ^ Z.pos p) by (apply Z.pow_pos_nonneg; lia).
        split; [nia | ]. split; [intros _; lia | lia].
      - assert (0 < 2 ^ Z.pos p) by (apply Z.pow_pos_nonneg; lia).
        split; [nia | ]. split; [lia | intros _; exact Hz]. }
    destruct Ha as (Hpos & Hge & Hlt).
    assert (Habs : (if s then - z else z) = Z.abs z /\ s = (z <? 0)).
    { destruct s; split; lia. }
    destruct Habs as [Habs Hs]. rewrite Habs in *.
    split; [lia | ]. exists m, e. split; [congruence | ].
    split; [ | split; assumption].
    rewrite <- Hc at 1. f_equal.
    destruct (Z_lt_le_dec e 0) as [Hneg | Hnn].
    + rewrite (Hlt Hneg), Zdigits2_mul_pow2 by lia. lia.
    + rewrite (Hge Hnn), Zdigits2_mul_pow2 by lia. lia.
Qed.

(** Two valid floats equal to the same int are equal. *)
Lemma float_eq_int_same (f g : spec_float) (z : Z) :
  valid_binary prec emax f = true -> valid_binary prec emax g = true ->
  float_eq_int f z = true -> float_eq_int g z = true -> SFeqb f g = true.
Proof.
  intros Hf Hg Hfz Hgz. apply SFeqb_true.
  destruct (float_eq_int_shape f z Hf Hfz)
    as [[Hz Hf0] | (Hz & m & e & Ef & He & Hge & Hlt)];
    destruct (float_eq_int_shape g z Hg Hgz)
      as [[Hz' Hg0] | (Hz' & m' & e' & Eg & He' & Hge' & Hlt')];
    try contradiction; auto.
  right. subst f g. split; [ | discriminate].
  rewrite <- He in He'. subst e'.
  f_equal. destruct (Z_lt_le_dec e 0) as [Hneg | Hnn].
  - specialize (Hlt Hneg). specialize (Hlt' Hneg). lia.
  - specialize (Hge Hnn). specialize (Hge' Hnn).
    assert (0 < 2 ^ e) by (apply Z.pow_pos_nonneg; lia). nia.
Qed.

(** * Mappings with unique keys *)

Lemma unique_keys_NoDup (ks : list string) :
  unique_keys ks = true -> NoDup ks.
Proof.
  induction ks as [ | k ks IH]; simpl; intro H; constructor;
    apply andb_prop in H; destruct H as [Hk Hks]; auto.
  intro Hin. rewrite (existsb_key k ks Hin) in Hk. discriminate.
Qed.

Lemma dict_get_key (d : dict) (k : string) :
  In k (map fst d) -> exists v, dict_get d k = Some v.
Proof.
  induction d as [ | [k' v'] d IH]; simpl; [tauto | ].
  intros [<- | Hin].
  - rewrite String.eqb_refl. eauto.
  - destruct (String.eqb k k'); eauto.
Qed.

Lemma In_key (d : dict) (k : string) (v : value) :
  In (k, v) d -> In k (map fst d).
Proof. intro H. apply in_map_iff. exists (k, v). auto. Qed.

Lemma items_in_spec (eq : value -> value -> bool) (e items : dict) :
  items_in eq e items = true <->
  (forall k v, In (k, v) items ->
               exists w, dict_get e k = Some w /\ eq v w = true).
Proof.
  induction items as [ | [k v] items IH]; simpl.
  - split; [intros _ k v [] | reflexivity].
  - rewrite andb_true_iff, IH. split.
    + intros [Hk Hrest] k' v' [Heq | Hin]; [ | auto].
      inversion Heq; subst.
      destruct (dict_get e k') as [w | ]; [eauto | discriminate].
    + intro H. split; [ | intros k' v' Hin; apply H; auto].
      destruct (H k v (or_introl eq_refl)) as (w & -> & Hw). exact Hw.
Qed.

Lemma well_formed_dict (d : dict) :
  well_formed (VDict d) = true ->
  unique_keys (map fst d) = true /\
  (forall k v, In (k, v) d -> well_formed v = true).
Proof.
  simpl. intro H. apply andb_prop in H. destruct H as [Hu Hall].
  split; [exact Hu | ]. intros k v Hin.
  rewrite forallb_forall in Hall. apply (Hall (k, v) Hin).
Qed.

Lemma well_formed_list (xs : list value) :
  well_formed (VList xs) = true -> forall x, In x xs -> well_formed x = true.
Proof. simpl. intro H. apply forallb_forall, H. Qed.

(** With unique keys, inclusion and equal sizes give the inclusion back. *)
Lemma items_in_back (eq : value -> value -> bool) (d e : dict) :
  unique_keys (map fst d) = true -> unique_keys (map fst e) = true ->
  List.length d = List.length e ->
  items_in eq e d = true ->
  forall k w, In (k, w) e ->
              exists v, In (k, v) d /\ dict_get d k = Some v /\ eq v w = true.
Proof.
  intros Hd He Hlen Hin k w Hkw.
  rewrite items_in_spec in Hin.
  assert (Hincl : incl (map fst d) (map fst e)).
  { intros k' Hk'. apply in_map_iff in Hk'.
    destruct Hk' as ([k'' v] & <- & Hv). simpl.
    destruct (Hin k'' v Hv) as (w' & Hget & _).
    apply (In_key e k'' w'), dict_get_In, Hget. }
  assert (Hback : incl (map fst e) (map fst d)).
  { apply NoDup_length_incl; auto using unique_keys_NoDup.
    rewrite !length_map. lia. }
  destruct (dict_get_key d k (Hback k (In_key e k w Hkw))) as (v & Hget).
  pose proof (dict_get_In d k v Hget) as Hv.
  destruct (Hin k v Hv) as (w' & Hget' & Heq).
  rewrite (dict_get_unique e k w He Hkw) in Hget'. inversion Hget'; subst w'.
  eauto.
Qed.

(** * [==] is an equivalence on well-formed trees *)

Lemma deep_equal_sym (a : value) :
  well_formed a = true ->
  forall b, well_formed b = true ->
            deep_equal a b = true -> deep_equal b a = true.
Proof.
  induction a as [ | x | x | f | s | xs IH | d IH] using value_ind;
    intros Ha [ | y | y | g | t | ys | e] Hb; simpl; try discriminate; auto.
  - destruct x, y; auto.
  - rewrite Z.eqb_sym. auto.
  - apply SFeqb_sym.
  - rewrite String.eqb_sym. auto.
  - pose proof (well_formed_list xs Ha) as Hxs.
    pose proof (well_formed_list ys Hb) as Hys.
    clear Ha Hb. revert ys Hys.
    induction xs as [ | x xs IHxs]; intros [ | y ys] Hys; simpl;
      try discriminate; auto.
    intro H. apply andb_prop in H. destruct H as [Hxy Hrest].
    inversion IH as [ | ? ? Hx IH']; subst.
    rewrite (Hx (Hxs x (or_introl eq_refl)) y (Hys y (or_introl eq_refl)) Hxy).
    simpl. apply IHxs; auto.
    + intros x' Hx'. apply Hxs. right. exact Hx'.
    + intros y' Hy'. apply Hys. right. exact Hy'.
  - destruct (well_formed_dict d Ha) as [Hud Hwd].
    destruct (well_formed_dict e Hb) as [Hue Hwe].
    unfold dict_eq. intro H. apply andb_prop in H. destruct H as [Hlen Hin].
    apply Nat.eqb_eq in Hlen.
    apply andb_true_intro. split; [apply Nat.eqb_eq; auto | ].
    apply items_in_spec. intros k w Hkw.
    destruct (items_in_back deep_equal d e Hud Hue Hlen Hin k w Hkw)
      as (v & Hv & Hget & Heq).
    exists v. split; [exact Hget | ].
    rewrite Forall_forall in IH.
    apply (IH (k, v) Hv (Hwd k v Hv) w (Hwe k w Hkw) Heq).
Qed.

Lemma deep_equal_trans (a : value) :
  well_formed a = true ->
  forall b c, well_formed b = true -> well_formed c = true ->
              deep_equal a b = true -> deep_equal b c = true ->
              deep_equal a c = true.
Proof.
  induction a as [ | x | x | f | s | xs IH | d IH] using value_ind;
    intros Ha [ | y | y | g | t | ys | e] [ | z | z | h | u | zs | e'] Hb Hc;
    simpl; try discriminate; auto.
  - destruct x, y, z; auto.
  - intros H1 H2. apply Z.eqb_eq in H1. subst. exact H2.
  - intros H1 H2. apply Z.eqb_eq in H1. subst. exact H2.
  - intros H1 H2. apply Z.eqb_eq.
    apply (float_eq_int_inj g x z H1 H2).
  - intros H1 H2. rewrite <- (float_eq_int_SFeqb g h x H2). exact H1.
  - intros H1 H2. apply Z.eqb_eq in H2. subst. exact H1.
  - intros H1 H2. simpl in Ha, Hc.
    apply (float_eq_int_same f h y); auto.
    + destruct f; try discriminate; auto.
    + destruct h; try discriminate; auto.
  - intros H1 H2. rewrite (float_eq_int_SFeqb f g z H1). exact H2.
  - apply SFeqb_trans.
  - intros H1 H2. apply String.eqb_eq in H1. subst. exact H2.
  - pose proof (well_formed_list xs Ha) as Hxs.
    pose proof (well_formed_list ys Hb) as Hys.
    pose proof (well_formed_list zs Hc) as Hzs.
    clear Ha Hb Hc. revert ys zs Hys Hzs.
    induction xs as [ | x xs IHxs]; intros [ | y ys] [ | z zs] Hys Hzs; simpl;
      try discriminate; auto.
    intros H1 H2. apply andb_prop in H1, H2.
    destruct H1 as [Hxy H1], H2 as [Hyz H2].
    inversion IH as [ | ? ? Hx IH']; subst.
    rewrite (Hx (Hxs x (or_introl eq_refl)) y z
                (Hys y (or_introl eq_refl)) (Hzs z (or_introl eq_refl))
                Hxy Hyz).
    simpl. apply (IHxs IH') with (ys := ys); auto.
    + intros x' Hx'. apply Hxs. right. exact Hx'.
    + intros y' Hy'. apply Hys. right. exact Hy'.
    + intros z' Hz'. apply Hzs. right. exact Hz'.
  - destruct (well_formed_dict d Ha) as [_ Hwd].
    destruct (well_formed_dict e Hb) as [_ Hwe].
    destruct (well_formed_dict e' Hc) as [_ Hwe'].
    unfold dict_eq. intros H1 H2. apply andb_prop in H1, H2.
    destruct H1 as [Hl1 H1], H2 as [Hl2 H2].
    apply Nat.eqb_eq in Hl1, Hl2.
    apply andb_true_intro. split; [apply Nat.eqb_eq; congruence | ].
    rewrite items_in_spec in *. intros k v Hv.
    destruct (H1 k v Hv) as (w & Hw & Hvw).
    pose proof (dict_get_In e k w Hw) as Hin.
    destruct (H2 k w Hin) as (u & Hu & Hwu).
    exists u. split; [exact Hu | ].
    rewrite Forall_forall in IH.
    apply (IH (k, v) Hv (Hwd k v Hv) w u (Hwe k w Hin)
              (Hwe' k u (dict_get_In e' k u Hu)) Hvw Hwu).
Qed.

Lemma unique_keys_as_number (d : dict) :
  map fst (map (fun kv => (fst kv, as_number (snd kv))) d) = map fst d.
Proof. rewrite map_map. reflexivity. Qed.

Lemma forallb_map_comp {A B : Type} (f : B -> bool) (g : A -> B)
  (l : list A) :
  forallb f (map g l) = forallb (fun x => f (g x)) l.
Proof. induction l as [ | x l IH]; simpl; congruence. Qed.

Lemma forallb_agree {A : Type} (f g : A -> bool) (l : list A) :
  (forall x, In x l -> f x = g x) -> forallb f l = forallb g l.
Proof.
  induction l as [ | x l IH]; simpl; intro H; [reflexivity | ].
  rewrite (H x (or_introl eq_refl)), IH; auto.
Qed.

Lemma well_formed_as_number (v : value) :
  well_formed (as_number v) = well_formed v.
Proof.
  induction v as [ | x | x | f | s | xs IH | d IH] using value_ind;
    simpl; auto.
  - rewrite forallb_map_comp. apply forallb_agree.
    intros x Hx. rewrite Forall_forall in IH. apply IH, Hx.
  - rewrite unique_keys_as_number. f_equal.
    rewrite forallb_map_comp. apply forallb_agree.
    intros kv Hkv. rewrite Forall_forall in IH. apply (IH kv Hkv).
Qed.

Lemma py_eq_sym (a b : value) :
  well_formed a = true -> well_formed b = true ->
  py_eq a b = true -> py_eq b a = true.
Proof.
  intros Ha Hb. rewrite !py_eq_as_number.
  apply deep_equal_sym; rewrite well_formed_as_number; assumption.
Qed.

Lemma py_eq_trans (a b c : value) :
  well_formed a = true -> well_formed b = true -> well_formed c = true ->
  py_eq a b = true -> py_eq b c = true -> py_eq a c = true.
Proof.
  intros Ha Hb Hc. rewrite !py_eq_as_number.
  apply deep_equal_trans; rewrite well_formed_as_number; assumption.
Qed.

Lemma py_eq_refl (a : value) : well_formed a = true -> py_eq a a = true.
Proof. intro Ha. apply deep_equal_py_eq, deep_equal_refl, Ha. Qed.

Lemma py_eq_sym_bool (a b : value) :
  well_formed a = true -> well_formed b = true -> py_eq a b = py_eq b a.
Proof.
  intros Ha Hb.
  destruct (py_eq a b) eqn:H1, (py_eq b a) eqn:H2; auto.
  - rewrite (py_eq_sym a b Ha Hb H1) in H2. discriminate.
  - rewrite (py_eq_sym b a Hb Ha H2) in H1. discriminate.
Qed.

(** * Scores of equal trees *)

Lemma entry_results (pred gold : dict) :
  Forall2 (key_result compare_json pred) gold (map (entry_result pred) gold).
Proof.
  induction gold as [ | [k v] gold IH]; simpl; constructor; auto.
  unfold key_result, entry_result. simpl.
  destruct (dict_get pred k) as [w | ]; [ | reflexivity].
  destruct (compare_json_returns v w) as (sub & -> & _). reflexivity.
Qed.

Lemma compare_json_dicts (gold pred : dict) :
  compare_json (VDict gold) (VDict pred) =
  Ok (sumZ (map fst (map (entry_result pred) gold)),
      len gold + sumZ (map snd (map (entry_result pred) gold))).
Proof.
  cbn [compare_json].
  rewrite (dict_loop_sums _ _ _ _ (entry_results pred gold)). reflexivity.
Qed.

Lemma entry_results_by_key (gold pred : dict) :
  unique_keys (map fst gold) = true ->
  map (entry_result pred) gold = map (key_total gold pred) (map fst gold).
Proof.
  intro Hu. rewrite map_map. apply map_ext_in. intros [k v] Hin.
  unfold key_total. simpl. rewrite (dict_get_unique gold k v Hu Hin).
  reflexivity.
Qed.

Lemma sumZ_Permutation (l l' : list Z) :
  Permutation l l' -> sumZ l = sumZ l'.
Proof. induction 1; simpl; lia. Qed.

Lemma dict_vs_other (g : dict) (pred : value) :
  is_dict pred = false -> compare_json (VDict g) pred = Ok (0, 1).
Proof. destruct pred; try reflexivity. discriminate. Qed.

Lemma py_eq_kind (a b : value) :
  py_eq a b = true -> is_dict a = is_dict b /\ is_list a = is_list b.
Proof. destruct a, b; simpl; try discriminate; auto. Qed.

Lemma py_eq_respects (g g' p p' : value) :
  well_formed g = true -> well_formed g' = true ->
  well_formed p = true -> well_formed p' = true ->
  py_eq g g' = true -> py_eq p p' = true -> py_eq g p = py_eq g' p'.
Proof.
  intros Hg Hg' Hp Hp' Hgg Hpp.
  destruct (py_eq g p) eqn:H1, (py_eq g' p') eqn:H2; auto.
  - assert (py_eq g' p' = true); [ | congruence].
    apply (py_eq_trans g' p p'); auto.
    apply (py_eq_trans g' g p); auto. apply py_eq_sym; auto.
  - assert (py_eq g p = true); [ | congruence].
    apply (py_eq_trans g p' p); auto; [ | apply py_eq_sym; auto].
    apply (py_eq_trans g g' p'); auto.
Qed.

Lemma list_eq_length (eq : value -> value -> bool) (xs ys : list value) :
  list_eq eq xs ys = true -> List.length xs = List.length ys.
Proof.
  revert ys. induction xs as [ | x xs IH]; intros [ | y ys]; simpl;
    try discriminate; auto.
  intro H. apply andb_prop in H. destruct H as [_ H]. f_equal. auto.
Qed.

Lemma zip_loop_respects (xs : list value) :
  Forall (fun x => well_formed x = true ->
            forall x' y y',
              well_formed x' = true -> well_formed y = true ->
              well_formed y' = true ->
              py_eq x x' = true -> py_eq y y' = true ->
              compare_json x y = compare_json x' y') xs ->
  forall xs' ys ys' acc,
    (forall x, In x xs -> well_formed x = true) ->
    (forall x, In x xs' -> well_formed x = true) ->
    (forall y, In y ys -> well_formed y = true) ->
    (forall y, In y ys' -> well_formed y = true) ->
    list_eq py_eq xs xs' = true -> list_eq py_eq ys ys' = true ->
    zip_loop compare_json xs ys acc = zip_loop compare_json xs' ys' acc.
Proof.
  induction 1 as [ | x xs Hx _ IH];
    intros [ | x' xs'] ys ys' acc Wx Wx' Wy Wy' Hxs Hys; simpl in Hxs;
    try discriminate; [reflexivity | ].
  apply andb_prop in Hxs. destruct Hxs as [Hxx Hxs].
  destruct ys as [ | y ys], ys' as [ | y' ys']; simpl in Hys;
    try discriminate; [reflexivity | ].
  apply andb_prop in Hys. destruct Hys as [Hyy Hys].
  cbn [zip_loop]. destruct acc as [m t].
  rewrite (Hx (Wx x (or_introl eq_refl)) x' y y'
              (Wx' x' (or_introl eq_refl)) (Wy y (or_introl eq_refl))
              (Wy' y' (or_introl eq_refl)) Hxx Hyy).
  destruct (compare_json x' y') as [[sub_m sub_t] | e]; [ | reflexivity].
  cbn [bind]. apply IH; auto; intros z Hz;
    [apply Wx | apply Wx' | apply Wy | apply Wy']; right; exact Hz.
Qed.

Lemma key_totals_agree (d d' e e' : dict) :
  Forall (fun kv => well_formed (snd kv) = true ->
            forall x' y y',
              well_formed x' = true -> well_formed y = true ->
              well_formed y' = true ->
              py_eq (snd kv) x' = true -> py_eq y y' = true ->
              compare_json (snd kv) y = compare_json x' y') d ->
  well_formed (VDict d) = true -> well_formed (VDict d') = true ->
  well_formed (VDict e) = true -> well_formed (VDict e') = true ->
  py_eq (VDict d) (VDict d') = true -> py_eq (VDict e) (VDict e') = true ->
  forall k, In k (map fst d) -> key_total d e k = key_total d' e' k.
Proof.
  intros IH Hd Hd' He He' Hdd Hee k Hk.
  destruct (well_formed_dict d Hd) as [Hud Hwd].
  destruct (well_formed_dict d' Hd') as [Hud' Hwd'].
  destruct (well_formed_dict e He) as [Hue Hwe].
  destruct (well_formed_dict e' He') as [Hue' Hwe'].
  simpl in Hdd, Hee. unfold dict_eq in Hdd, Hee.
  apply andb_prop in Hdd, Hee.
  destruct Hdd as [Hld Hdd], Hee as [Hle Hee].
  apply Nat.eqb_eq in Hld, Hle.
  pose proof (proj1 (items_in_spec py_eq d' d) Hdd) as Hdd1.
  pose proof (proj1 (items_in_spec py_eq e' e) Hee) as Hee1.
  destruct (dict_get_key d k Hk) as (v & Hv).
  pose proof (dict_get_In d k v Hv) as Hvin.
  destruct (Hdd1 k v Hvin) as (v' & Hv' & Hvv).
  pose proof (dict_get_In d' k v' Hv') as Hvin'.
  unfold key_total. rewrite Hv, Hv'. unfold entry_result. simpl.
  destruct (dict_get e k) as [w | ] eqn:Hw.
  - pose proof (dict_get_In e k w Hw) as Hwin.
    destruct (Hee1 k w Hwin) as (w' & Hw' & Hww). rewrite Hw'.
    rewrite Forall_forall in IH.
    pose proof (IH (k, v) Hvin (Hwd k v Hvin) v' w w' (Hwd' k v' Hvin')
                   (Hwe k w Hwin) (Hwe' k w' (dict_get_In e' k w' Hw'))
                   Hvv Hww) as Hq.
    simpl in Hq. rewrite Hq. reflexivity.
  - destruct (dict_get e' k) as [w' | ] eqn:Hw'; [ | reflexivity].
    destruct (items_in_back py_eq e e' Hue Hue' Hle Hee k w'
                (dict_get_In e' k w' Hw')) as (w & _ & Hget & _).
    congruence.
Qed.

Lemma keys_Permutation (d d' : dict) :
  well_formed (VDict d) = true -> well_formed (VDict d') = true ->
  py_eq (VDict d) (VDict d') = true ->
  Permutation (map fst d) (map fst d').
Proof.
  intros Hd Hd' Hdd.
  destruct (well_formed_dict d Hd) as [Hud _].
  simpl in Hdd. unfold dict_eq in Hdd. apply andb_prop in Hdd.
  destruct Hdd as [Hld Hdd]. apply Nat.eqb_eq in Hld.
  rewrite items_in_spec in Hdd.
  apply NoDup_Permutation_bis.
  - apply unique_keys_NoDup, Hud.
  - rewrite !length_map. lia.
  - intros k Hk. apply in_map_iff in Hk. destruct Hk as ([k' v] & <- & Hv).
    destruct (Hdd k' v Hv) as (w & Hw & _).
    apply (In_key d' k' w), dict_get_In, Hw.
Qed.

Lemma compare_json_respects (g : value) :
  well_formed g = true ->
  forall g' p p',
    well_formed g' = true -> well_formed p = true -> well_formed p' = true ->
    py_eq g g' = true -> py_eq p p' = true ->
    compare_json g p = compare_json g' p'.
Proof.
  induction g as [ | x | x | f | s | xs IH | d IH] using value_ind;
    intros Hg g' p p' Hg' Hp Hp' Hgg Hpp;
    destruct (py_eq_kind _ _ Hgg) as [Hkd Hkl];
    destruct (py_eq_kind _ _ Hpp) as [Hpd Hpl];
    try (rewrite !compare_json_else;
         [ rewrite (py_eq_respects _ g' p p' Hg Hg' Hp Hp' Hgg Hpp);
           reflexivity
         | unfold else_case; rewrite <- Hkd, <- Hkl; reflexivity
         | reflexivity ]).
  - destruct g' as [ | | | | | xs' | ]; try discriminate.
    destruct p as [ | | | | | ys | ];
      try (rewrite !compare_json_else;
           [ rewrite (py_eq_respects _ _ _ p' Hg Hg' Hp Hp' Hgg Hpp);
             reflexivity
           | unfold else_case; rewrite <- Hpl; reflexivity
           | reflexivity ]).
    destruct p' as [ | | | | | ys' | ]; try discriminate.
    simpl in Hgg, Hpp. cbn [compare_json].
    rewrite (zip_loop_respects xs IH xs' ys ys' (0, 0)
               (well_formed_list xs Hg) (well_formed_list xs' Hg')
               (well_formed_list ys Hp) (well_formed_list ys' Hp')
               Hgg Hpp).
    unfold len.
    rewrite (list_eq_length _ _ _ Hgg), (list_eq_length _ _ _ Hpp).
    reflexivity.
  - destruct g' as [ | | | | | | d']; try discriminate.
    destruct (is_dict p) eqn:Hdp.
    + destruct p as [ | | | | | | e]; try discriminate.
      destruct p' as [ | | | | | | e']; try discriminate.
      destruct (well_formed_dict d Hg) as [Hud _].
      destruct (well_formed_dict d' Hg') as [Hud' _].
      pose proof (keys_Permutation d d' Hg Hg' Hgg) as Hperm.
      rewrite !compare_json_dicts.
      rewrite (entry_results_by_key d e Hud),
        (entry_results_by_key d' e' Hud').
      assert (Hmap : map (key_total d' e') (map fst d') =
                     map (key_total d e) (map fst d')).
      { apply map_ext_in. intros k Hk. symmetry.
        apply (key_totals_agree d d' e e' IH Hg Hg' Hp Hp' Hgg Hpp).
        apply (Permutation_in k (Permutation_sym Hperm) Hk). }
      rewrite Hmap.
      assert (Hlen : len d = len d').
      { unfold len. f_equal.
        rewrite <- (length_map fst d), <- (length_map fst d').
        apply Permutation_length, Hperm. }
      rewrite Hlen.
      rewrite (sumZ_Permutation _ _
                 (Permutation_map fst
                    (Permutation_map (key_total d e) Hperm))).
      rewrite (sumZ_Permutation _ _
                 (Permutation_map snd
                    (Permutation_map (key_total d e) Hperm))).
      reflexivity.
    + rewrite !dict_vs_other; congruence.
Qed.

(** X6. [compare_json] and [score_accuracy] only see their arguments up
    to [==]: replacing [gold] or [pred] by an equal well-formed tree (other
    key order, [1.0] for [1], [True] for [1]) changes neither result. *)
Theorem score_respects_equality (g g' p p' : value) :
  well_formed g = true -> well_formed g' = true ->
  well_formed p = true -> well_formed p' = true ->
  py_eq g g' = true -> py_eq p p' = true ->
  compare_json g p = compare_json g' p' /\
  score_accuracy g p = score_accuracy g' p'.
Proof.
  intros Hg Hg' Hp Hp' Hgg Hpp.
  pose proof (compare_json_respects g Hg g' p p' Hg' Hp Hp' Hgg Hpp) as Hc.
  split; [exact Hc | ].
  unfold score_accuracy, score_accuracy_with.
  rewrite (py_eq_respects g g' p p' Hg Hg' Hp Hp' Hgg Hpp), Hc. reflexivity.
Qed.

(** * The records of a batch *)

Lemma score_accuracy_record (gold pred : value) :
  exists score,
    score_accuracy gold pred = Ok score /\
    score_record (py_eq gold pred) score.
Proof.
  destruct (compare_json_returns gold pred) as ([m t] & Hcmp & Hr).
  unfold in_range in Hr. simpl in Hr.
  unfold score_accuracy, score_accuracy_with, score_record.
  destruct (py_eq gold pred).
  - eexists. split; [reflexivity | ].
    eexists. eexists. split; [reflexivity | ].
    split; [reflexivity | ]. split; [reflexivity | ].
    split; [apply float_le_zero_100 | apply float_le_100_100].
  - rewrite Hcmp. cbn [bind].
    destruct (Z.gtb_spec t 0) as [Ht | Ht].
    + destruct (match_percent_below_100 m t Hr ltac:(lia)) as (q & Hq & Hb).
      rewrite Hq. cbn [bind].
      eexists. split; [reflexivity | ].
      eexists. eexists. split; [reflexivity | ].
      split; [reflexivity | ]. split; [reflexivity | ].
      apply below_100_range, Hb.
    + cbn [bind].
      eexists. split; [reflexivity | ].
      eexists. eexists. split; [reflexivity | ].
      split; [reflexivity | ]. split; [reflexivity | ].
      split; [apply float_le_zero_zero | apply float_le_zero_100].
Qed.

Section BatchRecords.
Variable run_node : string -> node_run.
Variable json_loads : string -> result value.
Variable strip : string -> string.
Variable call_llm_to_generate_ast_gemini : string -> result value.
Hypothesis node_json : node_prints_json run_node json_loads.

Lemma batch_item_record (sql : string) :
  exists score,
    batch_item run_node json_loads strip call_llm_to_generate_ast_gemini
               score_accuracy sql =
    Ok (VDict [("sql", VStr sql); ("score", score)]) /\
    score_record
      (exact_item run_node json_loads strip call_llm_to_generate_ast_gemini
                  sql)
      score.
Proof.
  unfold batch_item, exact_item.
  destruct (parse_with_node_returns run_node json_loads strip node_json sql)
    as (gold_ast & ->).
  cbn [bind].
  destruct (call_llm_to_generate_ast_gemini sql) as [llm_ast | e].
  - cbn [bind].
    destruct (score_accuracy_record gold_ast llm_ast) as (score & -> & Hs).
    eauto.
  - cbn [bind]. eexists. split; [reflexivity | ].
    eexists. eexists. split; [reflexivity | ].
    split; [reflexivity | ]. split; [reflexivity | ].
    split; [apply float_le_zero_zero | apply float_le_zero_100].
Qed.

Lemma batch_records (test_sqls : list string) :
  exists results,
    batch_results run_node json_loads strip call_llm_to_generate_ast_gemini
                  test_sqls = Ok results /\
    Forall2 (fun sql record =>
               exists score,
                 record = VDict [("sql", VStr sql); ("score", score)] /\
                 score_record
                   (exact_item run_node json_loads strip
                               call_llm_to_generate_ast_gemini sql)
                   score)
            test_sqls results.
Proof.
  unfold batch_results.
  destruct (batch_loop_returns run_node json_loads strip
              call_llm_to_generate_ast_gemini score_accuracy node_json
              test_sqls []) as (records & Hloop & Hall).
  exists records. split; [exact Hloop | ].
  revert Hall. apply Forall2_impl. intros sql record Hitem.
  destruct (batch_item_record sql) as (score & Heq & Hs).
  rewrite Heq in Hitem. inversion Hitem; subst. eauto.
Qed.
End BatchRecords.

Section ReportLemmas.
Variable not_subscriptable : value -> exception.
Variable no_attribute_get : value -> exception.
Variable sum_from_other : Z -> value -> list value -> result value.

Lemma sum_exact_match_records (flags : list bool) (results : list value) :
  Forall2 (fun flag record =>
             exists sql score,
               record = VDict [("sql", VStr sql); ("score", score)] /\
               score_record flag score)
          flags results ->
  forall acc,
    sum_exact_match not_subscriptable no_attribute_get sum_from_other
                    acc results =
    Ok (VInt (acc + Z.of_nat (List.length (filter (fun b => b) flags)))).
Proof.
  induction 1 as [ | flag record flags results Hr _ IH]; intro acc.
  - simpl. rewrite Z.add_0_r. reflexivity.
  - destruct Hr as (sql & score & -> & entries & pct & -> & Hex & _).
    assert (Hsub : subscript not_subscriptable
                     (VDict [("sql", VStr sql); ("score", VDict entries)])
                     "score" = Ok (VDict entries)) by reflexivity.
    assert (Hget : get no_attribute_get (VDict entries) "exact_match" (VInt 0)
                   = Ok (VInt (b2z flag))).
    { unfold get. rewrite Hex. reflexivity. }
    cbn [sum_exact_match]. rewrite Hsub. cbn [bind].
    rewrite Hget. cbn [bind]. rewrite IH.
    destruct flag; cbn [filter List.length b2z].
    + rewrite Nat2Z.inj_succ. f_equal. f_equal. lia.
    + f_equal. f_equal. lia.
Qed.
End ReportLemmas.

(** * Markdown fences around the model's answer *)

Lemma chars_app (a b : string) : chars (a ++ b)%string = chars a ++ chars b.
Proof.
  unfold chars. induction a as [ | c a IH]; simpl; [reflexivity | ].
  rewrite IH. reflexivity.
Qed.

Lemma strip_prefix_app (pre l : list ascii) :
  strip_prefix pre (pre ++ l) = Some l.
Proof.
  induction pre as [ | c pre IH]; simpl; [reflexivity | ].
  rewrite Ascii.eqb_refl. exact IH.
Qed.

Lemma strip_prefix_head (pre l : list ascii) (c : ascii) :
  ~ In c l -> strip_prefix (c :: pre) l = None.
Proof.
  intro Hc. destruct l as [ | c' l]; simpl; [reflexivity | ].
  destruct (Ascii.eqb_spec c c') as [-> | _]; [ | reflexivity].
  exfalso. apply Hc. left. reflexivity.
Qed.

Section FenceLemmas.
Variable is_space : ascii -> bool.

Lemma drop_spaces_spaces (ws l : list ascii) :
  forallb is_space ws = true ->
  drop_spaces is_space (ws ++ l) = drop_spaces is_space l.
Proof.
  induction ws as [ | c ws IH]; simpl; [reflexivity | ].
  intro H. apply andb_prop in H. destruct H as [-> H]. auto.
Qed.

Lemma drop_spaces_keeps (c : ascii) (l : list ascii) :
  is_space c = false -> drop_spaces is_space (c :: l) = c :: l.
Proof. intro H. simpl. rewrite H. reflexivity. Qed.

Lemma drop_spaces_length (l : list ascii) :
  (List.length (drop_spaces is_space l) <= List.length l)%nat.
Proof.
  induction l as [ | c l IH]; simpl; [lia | ].
  destruct (is_space c); simpl; lia.
Qed.

Lemma drop_spaces_fixed (l : list ascii) :
  drop_spaces is_space l = l ->
  l = [] \/ exists c l', l = c :: l' /\ is_space c = false.
Proof.
  destruct l as [ | c l]; [auto | ]. simpl.
  destruct (is_space c) eqn:Hc; [ | eauto].
  intro H. pose proof (drop_spaces_length l) as Hl.
  rewrite H in Hl. simpl in Hl. lia.
Qed.

Lemma drop_spaces_In (l : list ascii) (c : ascii) :
  In c (drop_spaces is_space l) -> In c l.
Proof.
  induction l as [ | c' l IH]; simpl; [tauto | ].
  destruct (is_space c'); simpl; tauto.
Qed.

Lemma strip_chars_In (l : list ascii) (c : ascii) :
  In c (strip_chars is_space l) -> In c l.
Proof.
  unfold strip_chars. intro H.
  apply in_rev, drop_spaces_In, in_rev, drop_spaces_In in H. exact H.
Qed.

(** A text that is stripped starts and ends with no whitespace. *)
Lemma strip_chars_fixed (l : list ascii) :
  strip_chars is_space l = l ->
  drop_spaces is_space l = l /\ drop_spaces is_space (rev l) = rev l.
Proof.
  unfold strip_chars. intro H.
  assert (Hlen : List.length (drop_spaces is_space l) = List.length l).
  { pose proof (drop_spaces_length l).
    pose proof (drop_spaces_length (rev (drop_spaces is_space l))) as H2.
    rewrite length_rev in H2.
    pose proof (f_equal (@List.length ascii) H) as HL.
    rewrite length_rev in HL. lia. }
  assert (Hd : drop_spaces is_space l = l).
  { destruct l as [ | c l]; [reflexivity | ]. simpl in *.
    destruct (is_space c); [ | reflexivity].
    pose proof (drop_spaces_length l). lia. }
  split; [exact Hd | ].
  rewrite Hd in H. apply (f_equal (@rev ascii)) in H.
  rewrite rev_involutive in H. exact H.
Qed.

Lemma spaces_rev (ws : list ascii) :
  forallb is_space ws = true -> forallb is_space (rev ws) = true.
Proof.
  rewrite !forallb_forall. intros H c Hc. apply H, in_rev, Hc.
Qed.

Lemma strip_chars_between (ws0 ws3 body : list ascii) :
  forallb is_space ws0 = true -> forallb is_space ws3 = true ->
  drop_spaces is_space body = body ->
  drop_spaces is_space (rev body) = rev body ->
  strip_chars is_space (ws0 ++ body ++ ws3) = body.
Proof.
  intros H0 H3 Hb Hr. unfold strip_chars.
  rewrite (drop_spaces_spaces ws0 _ H0).
  destruct (drop_spaces_fixed body Hb) as [-> | (c & l' & -> & Hc)].
  - simpl. rewrite <- (app_nil_r ws3).
    rewrite (drop_spaces_spaces ws3 [] H3). simpl.
    reflexivity.
  - change ((c :: l') ++ ws3) with (c :: (l' ++ ws3)).
    rewrite (drop_spaces_keeps c _ Hc).
    change (c :: l' ++ ws3) with ((c :: l') ++ ws3).
    rewrite rev_app_distr.
    rewrite drop_spaces_spaces by (apply spaces_rev, H3).
    rewrite Hr, rev_involutive. reflexivity.
Qed.
End FenceLemmas.

Section FencedAnswers.
Variable is_space : ascii -> bool.
Hypothesis backtick_no_space : is_space "`"%char = false.

Lemma sub_open_fence_tagged (ws payload rest : list ascii) :
  forallb is_space ws = true ->
  (payload = [] \/ exists c l, payload = c :: l /\ is_space c = false) ->
  sub_open_fence is_space
    (chars "```json" ++ ws ++ payload ++ chars "```" ++ rest) =
  payload ++ chars "```" ++ rest.
Proof.
  intros Hws Hp. unfold sub_open_fence.
  change (chars "```json") with (chars "```" ++ chars "json").
  rewrite <- app_assoc, strip_prefix_app.
  rewrite strip_prefix_app.
  rewrite (drop_spaces_spaces is_space ws _ Hws).
  destruct Hp as [-> | (c & l & -> & Hc)].
  - simpl. rewrite backtick_no_space. reflexivity.
  - simpl. rewrite Hc. reflexivity.
Qed.

Lemma sub_close_fence_end (ws payload : list ascii) :
  forallb is_space ws = true ->
  drop_spaces is_space (rev payload) = rev payload ->
  sub_close_fence is_space (payload ++ ws ++ chars "```") = payload.
Proof.
  intros Hws Hp. unfold sub_close_fence.
  rewrite !rev_app_distr.
  change (rev (chars "```")) with (chars "```").
  rewrite <- app_assoc, strip_prefix_app.
  rewrite drop_spaces_spaces by (apply spaces_rev, Hws).
  rewrite Hp, rev_involutive. reflexivity.
Qed.

(** The fenced block, possibly surrounded by whitespace. *)
Lemma clean_fenced (ws0 ws1 ws2 ws3 payload : list ascii) :
  forallb is_space ws0 = true -> forallb is_space ws1 = true ->
  forallb is_space ws2 = true -> forallb is_space ws3 = true ->
  strip_chars is_space payload = payload ->
  sub_close_fence is_space
    (sub_open_fence is_space
       (strip_chars is_space
          (ws0 ++ (chars "```json" ++ ws1 ++ payload ++ ws2 ++ chars "```")
               ++ ws3))) = payload.
Proof.
  intros H0 H1 H2 H3 Hp.
  destruct (strip_chars_fixed is_space payload Hp) as [Hd Hr].
  rewrite strip_chars_between; auto.
  - replace (chars "```json" ++ ws1 ++ payload ++ ws2 ++ chars "```")
      with (chars "```json" ++ ws1 ++ (payload ++ ws2) ++ chars "```" ++ [])
      by (rewrite app_nil_r, <- !app_assoc; reflexivity).
    destruct (drop_spaces_fixed is_space payload Hd)
      as [-> | (c & l & -> & Hc)].
    + rewrite app_nil_l.
      replace (chars "```json" ++ ws1 ++ ws2 ++ chars "```" ++ [])
        with (chars "```json" ++ (ws1 ++ ws2) ++ [] ++ chars "```" ++ [])
        by (rewrite <- !app_assoc; reflexivity).
      rewrite sub_open_fence_tagged;
        [ | rewrite forallb_app, H1, H2; reflexivity | auto].
      reflexivity.
    + rewrite sub_open_fence_tagged; auto.
      * rewrite app_nil_r, <- app_assoc.
        apply sub_close_fence_end; auto.
      * right. exists c, (l ++ ws2). auto.
  - simpl. rewrite backtick_no_space. reflexivity.
  - rewrite !rev_app_distr. simpl. rewrite backtick_no_space. reflexivity.
Qed.

Lemma clean_no_backtick (content : list ascii) :
  ~ In "`"%char content ->
  sub_close_fence is_space (sub_open_fence is_space content) = content.
Proof.
  intro Hno.
  assert (Hopen : sub_open_fence is_space content = content).
  { unfold sub_open_fence. change (chars "```") with ("`"%char :: chars "``").
    rewrite strip_prefix_head; auto. }
  rewrite Hopen. unfold sub_close_fence.
  change (chars "```") with ("`"%char :: chars "``").
  assert (Hrev : ~ In "`"%char (rev content)).
  { intro H. apply Hno, in_rev, H. }
  rewrite strip_prefix_head by exact Hrev.
  destruct (rev content) as [ | c r] eqn:Hr; [reflexivity | ].
  assert (Hr' : ~ In "`"%char r). { intro H. apply Hrev. right. exact H. }
  rewrite (strip_prefix_head _ r _ Hr').
  destruct c as [[ | ] [ | ] [ | ] [ | ] [ | ] [ | ] [ | ] [ | ]]; reflexivity.
Qed.
End FencedAnswers.

(** X9. An answer of the model wrapped in a [```json] fence, with any
    whitespace around the fence and around the payload, is cleaned to the
    payload itself, so the candidate producer returns what [json.loads]
    gives on the payload. *)
Theorem fenced_answer_is_unwrapped
  (is_space : ascii -> bool)
  (system_msg examples_text : string)
  (generate_content_text : string -> result string)
  (json_loads : string -> result value)
  (sql_query ws0 ws1 ws2 ws3 payload : string) :
  is_space "`"%char = false ->
  forallb is_space (chars ws0) = true ->
  forallb is_space (chars ws1) = true ->
  forallb is_space (chars ws2) = true ->
  forallb is_space (chars ws3) = true ->
  strip_chars is_space (chars payload) = chars payload ->
  clean_content is_space
    (ws0 ++ ("```json" ++ ws1 ++ payload ++ ws2 ++ "```") ++ ws3)%string =
  payload /\
  (generate_content_text (prompt_of system_msg examples_text sql_query) =
   Ok (ws0 ++ ("```json" ++ ws1 ++ payload ++ ws2 ++ "```") ++ ws3)%string ->
   call_llm_to_generate_ast_gemini is_space system_msg examples_text
     generate_content_text json_loads sql_query = json_loads payload).
Proof.
  intros Hb H0 H1 H2 H3 Hp.
  assert (Hclean :
            clean_content is_space
              (ws0 ++ ("```json" ++ ws1 ++ payload ++ ws2 ++ "```") ++ ws3)
            = payload).
  { unfold clean_content. rewrite !chars_app.
    rewrite (clean_fenced is_space Hb (chars ws0) (chars ws1) (chars ws2)
               (chars ws3) (chars payload) H0 H1 H2 H3 Hp).
    apply string_of_list_ascii_of_string. }
  split; [exact Hclean | ].
  intro Hgen. unfold call_llm_to_generate_ast_gemini.
  rewrite Hgen. cbn [bind]. rewrite Hclean. reflexivity.
Qed.

(** X10. From an answer that holds no backtick, the cleaning removes
    the surrounding whitespace and nothing else. *)
Theorem unfenced_answer_is_stripped
  (is_space : ascii -> bool) (text : string) :
  ~ In "`"%char (chars text) ->
  clean_content is_space text =
  string_of_list_ascii (strip_chars is_space (chars text)).
Proof.
  intro Hno. unfold clean_content. f_equal.
  apply clean_no_backtick. intro H. apply Hno.
  apply (strip_chars_In is_space _ _ H).
Qed.

(** * Matches and the leaves of [gold] *)

Lemma sumZ_le_list_sum {A : Type} (f : A -> Z) (g : A -> nat) (l : list A) :
  Forall (fun x => f x <= Z.of_nat (g x)) l ->
  sumZ (map f l) <= Z.of_nat (list_sum (map g l)).
Proof.
  induction 1 as [ | x l Hx _ IH]; simpl; [lia | ].
  rewrite Nat2Z.inj_add. lia.
Qed.

Lemma entry_matches_le (pred gold : dict) :
  Forall (fun kv => forall p m t,
              compare_json (snd kv) p = Ok (m, t) ->
              m <= Z.of_nat (scalar_leaves (snd kv))) gold ->
  Forall (fun kv => fst (entry_result pred kv)
                    <= Z.of_nat (scalar_leaves (snd kv))) gold.
Proof.
  apply Forall_impl. intros [k v] H. unfold entry_result. simpl in *.
  destruct (dict_get pred k) as [w | ]; [ | simpl; lia].
  destruct (compare_json v w) as [[m t] | e] eqn:Hc; [ | simpl; lia].
  apply (H w m t Hc).
Qed.

Lemma zip_matches_le (g p : list value) (subs : list (Z * Z)) :
  Forall (fun x => forall q m t,
              compare_json x q = Ok (m, t) ->
              m <= Z.of_nat (scalar_leaves x)) g ->
  Forall2 (fun gp sub => compare_json (fst gp) (snd gp) = Ok sub)
          (combine g p) subs ->
  sumZ (map fst subs) <= Z.of_nat (list_sum (map scalar_leaves g)).
Proof.
  intro H. revert p subs.
  induction H as [ | x g Hx _ IH]; intros p subs Hall.
  - simpl in Hall. inversion Hall; subst. simpl. lia.
  - destruct p as [ | y p]; simpl in Hall.
    + inversion Hall; subst. simpl. lia.
    + inversion Hall as [ | gp [m t] l subs' Hc Hrest]; subst.
      simpl in Hc. specialize (IH p subs' Hrest). specialize (Hx y m t Hc).
      change (list_sum (map scalar_leaves (x :: g)))
        with (scalar_leaves x + list_sum (map scalar_leaves g))%nat.
      cbn [map sumZ fst]. rewrite Nat2Z.inj_add. lia.
Qed.

Lemma matches_le_leaves (gold pred : value) (m t : Z) :
  compare_json gold pred = Ok (m, t) -> m <= Z.of_nat (scalar_leaves gold).
Proof.
  revert pred m t.
  induction gold as [ | b | z | f | s | xs IH | d IH] using value_ind;
    intros pred m t Hc;
    try (rewrite compare_json_else in Hc by reflexivity;
         injection Hc as Hm _; rewrite <- Hm;
         match goal with |- context [if ?b then _ else _] => destruct b end;
         simpl; lia).
  - destruct pred as [ | | | | | ys | ];
      try (rewrite compare_json_else in Hc by reflexivity;
           injection Hc as Hm _; rewrite <- Hm; simpl; lia).
    destruct (zip_results_exist compare_json xs ys (returns_on_items xs))
      as (subs & Hsubs & _).
    cbn [compare_json] in Hc. rewrite (zip_loop_sums _ _ _ _ Hsubs) in Hc.
    cbn [bind fst snd] in Hc. inversion Hc; subst.
    pose proof (zip_matches_le xs ys subs IH Hsubs). simpl. lia.
  - destruct pred as [ | | | | | | e];
      try (inversion Hc; simpl; lia).
    rewrite compare_json_dicts in Hc. inversion Hc; subst.
    rewrite map_map. simpl.
    apply sumZ_le_list_sum, entry_matches_le, IH.
Qed.

(** X2. [matches] never exceeds the number of scalar leaves of [gold],
    and [total] is 0 only when [gold] holds no scalar and no mapping key
    (it is built from empty sequences and empty mappings alone). *)
Theorem matches_bounded_by_gold (gold pred : value) :
  exists matches total,
    compare_json gold pred = Ok (matches, total) /\
    matches <= Z.of_nat (scalar_leaves gold) /\
    (total = 0 ->
     matches = 0 /\ scalar_leaves gold = 0%nat /\ mapping_keys gold = 0%nat).
Proof.
  destruct (compare_json_returns gold pred) as ([m t] & Hc & Hr).
  exists m, t. split; [exact Hc | ]. split.
  - apply (matches_le_leaves gold pred m t Hc).
  - intros ->. unfold in_range in Hr. simpl in Hr.
    split; [lia | ]. apply (total_zero_weightless gold pred m Hc).
Qed.

Lemma matches_bounded_by_gold_witness :
  exists matches,
    compare_json (VList [VDict []; VList []]) (VList [VDict [("a", VInt 1)]; VList []])
    = Ok (matches, 0) /\ matches = 0.
Proof.
  destruct (matches_bounded_by_gold
              (VList [VDict []; VList []])
              (VList [VDict [("a", VInt 1)]; VList []]))
    as (m & t & Hc & _ & Hz).
  vm_compute in Hc. inversion Hc; subst.
  exists 0. split; [reflexivity | ]. apply (proj1 (Hz eq_refl)).
Defined.

(** * [exact_match] and the order of the arguments *)

(** X5. On well-formed trees [==] is reflexive, symmetric and
    transitive, so whether [score_accuracy] reports an exact match does
    not depend on the order of its two arguments. *)
Theorem exact_match_is_symmetric :
  (forall a, well_formed a = true -> py_eq a a = true) /\
  (forall a b,
     well_formed a = true -> well_formed b = true ->
     py_eq a b = py_eq b a) /\
  (forall a b c,
     well_formed a = true -> well_formed b = true -> well_formed c = true ->
     py_eq a b = true -> py_eq b c = true -> py_eq a c = true) /\
  (forall a b,
     well_formed a = true -> well_formed b = true ->
     (score_accuracy a b =
      Ok (VDict [("exact_match", VInt 1);
                 ("match_percent", VFloat float_100)]) <->
      score_accuracy b a =
      Ok (VDict [("exact_match", VInt 1);
                 ("match_percent", VFloat float_100)]))).
Proof.
  split; [exact py_eq_refl | ]. split; [exact py_eq_sym_bool | ].
  split; [exact py_eq_trans | ].
  assert (Hdir : forall a b,
             well_formed a = true -> well_formed b = true ->
             score_accuracy a b =
             Ok (VDict [("exact_match", VInt 1);
                        ("match_percent", VFloat float_100)]) ->
             score_accuracy b a =
             Ok (VDict [("exact_match", VInt 1);
                        ("match_percent", VFloat float_100)])).
  { intros a b Ha Hb H.
    unfold score_accuracy, score_accuracy_with in *.
    rewrite (py_eq_sym_bool b a Hb Ha).
    destruct (py_eq a b); [reflexivity | ].
    destruct (compare_json a b) as [[m t] | e]; cbn [bind] in H;
      [ | discriminate].
    destruct (if t >? 0
              then q <- py_truediv m t;;
                   Ok (py_round (float_mul q (float_of_int 100)) 2)
              else Ok float_zero) as [pct | e]; cbn [bind] in H;
      discriminate. }
  intros a b Ha Hb. split; apply Hdir; assumption.
Qed.

Lemma exact_match_is_symmetric_witness :
  py_eq (VDict [("a", VInt 1); ("b", VBool true)])
        (VDict [("b", VFloat (decimal_literal 10 1)); ("a", VInt 1)]) =
  py_eq (VDict [("b", VFloat (decimal_literal 10 1)); ("a", VInt 1)])
        (VDict [("a", VInt 1); ("b", VBool true)]).
Proof.
  apply (proj1 (proj2 exact_match_is_symmetric)); reflexivity.
Defined.

(** * The batch and its report *)

Lemma compare_json_of_equal_trees_witness :
  compare_json (VDict [("a", VList [VInt 1; VBool true]); ("b", VDict [])])
               (VDict [("b", VDict []); ("a", VList [VBool true; VInt 1])]) =
  Ok (2, 4).
Proof.
  apply (proj1 compare_json_of_equal_trees
               (VDict [("a", VList [VInt 1; VBool true]); ("b", VDict [])])
               (VDict [("b", VDict []); ("a", VList [VBool true; VInt 1])]));
    reflexivity.
Defined.

Lemma compare_json_additive_witness :
  compare_json (VList ([VInt 1] ++ [VInt 2; VInt 3]))
               (VList ([VInt 1] ++ [VInt 5])) =
  Ok (1, 3).
Proof.
  rewrite (proj1 compare_json_additive [VInt 1] [VInt 2; VInt 3]
                 [VInt 1] [VInt 5] eq_refl).
  reflexivity.
Defined.

Lemma score_respects_equality_witness :
  score_accuracy (VDict [("a", VInt 1); ("b", VList [VBool true])])
                 (VDict [("a", VInt 2)]) =
  score_accuracy (VDict [("b", VList [VInt 1]);
                         ("a", VFloat (decimal_literal 10 1))])
                 (VDict [("a", VFloat (decimal_literal 20 1))]).
Proof.
  apply (proj2 (score_respects_equality
                  (VDict [("a", VInt 1); ("b", VList [VBool true])])
                  (VDict [("b", VList [VInt 1]);
                          ("a", VFloat (decimal_literal 10 1))])
                  (VDict [("a", VInt 2)])
                  (VDict [("a", VFloat (decimal_literal 20 1))])
                  eq_refl eq_refl eq_refl eq_refl eq_refl eq_refl)).
Defined.

Lemma sample_node_prints_json :
  node_prints_json sample_run_node sample_json_loads.
Proof.
  intros sql stdout. unfold sample_run_node, sample_json_loads.
  destruct (String.eqb sql "DROP TABLE temp_data;"); intro H;
    inversion H; subst. exists (VDict []). reflexivity.
Qed.

(** X7. The batch scored with [score_accuracy] returns one record
    [{sql, score}] per query, in the order of the queries; the score of
    each has [exact_match] 1 when the candidate producer returned a tree
    equal to the reference tree and 0 otherwise (failures included), and a
    [match_percent] within [0.0, 100.0]. *)
Theorem batch_score_records
  (run_node : string -> node_run)
  (json_loads : string -> result value)
  (strip : string -> string)
  (call_llm : string -> result value)
  (test_sqls : list string) :
  node_prints_json run_node json_loads ->
  exists results,
    batch_results run_node json_loads strip call_llm test_sqls = Ok results /\
    Forall2 (fun sql record =>
               exists score,
                 record = VDict [("sql", VStr sql); ("score", score)] /\
                 score_record
                   (exact_item run_node json_loads strip call_llm sql) score)
            test_sqls results.
Proof. intro Hnode. apply batch_records, Hnode. Qed.

Lemma batch_score_records_witness :
  exists results,
    batch_results sample_run_node sample_json_loads (fun text => text)
                  sample_llm sample_sqls = Ok results /\
    List.length results = 2%nat.
Proof.
  destruct (batch_score_records sample_run_node sample_json_loads
              (fun text => text) sample_llm sample_sqls
              sample_node_prints_json) as (results & Hres & Hall).
  exists results. split; [exact Hres | ].
  rewrite <- (Forall2_length Hall). reflexivity.
Defined.

Lemma Forall2_map_left {A B C : Type} (f : A -> B) (R : B -> C -> Prop)
  (l : list A) (l' : list C) :
  Forall2 (fun x y => R (f x) y) l l' -> Forall2 R (map f l) l'.
Proof. induction 1; simpl; constructor; auto. Qed.

Lemma filter_id_map {A : Type} (f : A -> bool) (l : list A) :
  List.length (filter (fun b => b) (map f l)) = List.length (filter f l).
Proof.
  induction l as [ | x l IH]; simpl; [reflexivity | ].
  destruct (f x); simpl; congruence.
Qed.

(** X8. On the results of a batch the sum of the report raises no
    error and [total_exact] is the number of queries whose candidate tree
    equals the reference tree, at most [len(results)]. *)
Theorem total_exact_counts
  (not_subscriptable no_attribute_get : value -> exception)
  (sum_from_other : Z -> value -> list value -> result value)
  (run_node : string -> node_run)
  (json_loads : string -> result value)
  (strip : string -> string)
  (call_llm : string -> result value)
  (test_sqls : list string) (results : list value) :
  node_prints_json run_node json_loads ->
  batch_results run_node json_loads strip call_llm test_sqls = Ok results ->
  total_exact not_subscriptable no_attribute_get sum_from_other results =
  Ok (VInt (Z.of_nat
              (List.length
                 (filter (exact_item run_node json_loads strip call_llm)
                         test_sqls)))) /\
  Z.of_nat (List.length
              (filter (exact_item run_node json_loads strip call_llm)
                      test_sqls)) <= len results.
Proof.
  intros Hnode Hres.
  destruct (batch_records run_node json_loads strip call_llm Hnode test_sqls)
    as (results' & Hres' & Hall).
  rewrite Hres in Hres'. inversion Hres'; subst results'. split.
  - unfold total_exact.
    rewrite (sum_exact_match_records not_subscriptable no_attribute_get
               sum_from_other
               (map (exact_item run_node json_loads strip call_llm) test_sqls)
               results).
    + rewrite filter_id_map. reflexivity.
    + apply Forall2_map_left. revert Hall. apply Forall2_impl.
      intros sql record (score & -> & Hs). eauto.
  - unfold len. rewrite <- (Forall2_length Hall).
    apply inj_le, filter_length_le.
Qed.

Lemma total_exact_counts_witness :
  exists results,
    batch_results sample_run_node sample_json_loads (fun text => text)
                  sample_llm sample_sqls = Ok results /\
    total_exact (fun _ => Exception "TypeError")
                (fun _ => Exception "AttributeError")
                (fun _ _ _ => Raise (Exception "TypeError")) results =
    Ok (VInt 1).
Proof.
  destruct (batch_records sample_run_node sample_json_loads
              (fun text => text) sample_llm sample_node_prints_json
              sample_sqls) as (results & Hres & _).
  exists results. split; [exact Hres | ].
  apply (proj1 (total_exact_counts
                  (fun _ => Exception "TypeError")
                  (fun _ => Exception "AttributeError")
                  (fun _ _ _ => Raise (Exception "TypeError"))
                  sample_run_node sample_json_loads (fun text => text)
                  sample_llm sample_sqls results
                  sample_node_prints_json Hres)).
Defined.

Lemma fenced_answer_is_unwrapped_witness :
  call_llm_to_generate_ast_gemini ascii_whitespace "system" "examples"
    (fun _ => Ok (String "010" ("```json" ++ String "010" "{}" ++
                                String "010" "```")))
    sample_json_loads "DROP TABLE temp_data;" =
  Ok (VDict []).
Proof.
  apply (proj2 (fenced_answer_is_unwrapped ascii_whitespace
                  "system" "examples"
                  (fun _ => Ok (String "010" ("```json" ++ String "010" "{}" ++
                                              String "010" "```")))
                  sample_json_loads "DROP TABLE temp_data;"
                  (String "010" EmptyString) (String "010" EmptyString)
                  (String "010" EmptyString) EmptyString "{}"
                  eq_refl eq_refl eq_refl eq_refl eq_refl eq_refl)).
  reflexivity.
Defined.

Lemma unfenced_answer_is_stripped_witness :
  clean_content ascii_whitespace (" {}" ++ String "010" EmptyString) = "{}".
Proof.
  rewrite (unfenced_answer_is_stripped ascii_whitespace).
  - reflexivity.
  - vm_compute. intros [H | [H | [H | [H | []]]]]; discriminate H.
Defined.

(** * The keys of a score *)

Lemma score_accuracy_shape (gold pred : value) :
  exists matches total match_percent,
    compare_json gold pred = Ok (matches, total) /\
    score_accuracy gold pred =
    Ok (if py_eq gold pred
        then VDict [("exact_match", VInt 1);
                    ("match_percent", VFloat float_100)]
        else VDict [("exact_match", VInt 0);
                    ("match_percent", VFloat match_percent);
                    ("matches", VInt matches);
                    ("total", VInt total)]).
Proof.
  destruct (compare_json_returns gold pred) as ([m t] & Hcmp & Hr).
  unfold in_range in Hr. simpl in Hr.
  unfold score_accuracy, score_accuracy_with. rewrite Hcmp.
  destruct (py_eq gold pred).
  - exists m, t, float_zero. auto.
  - cbn [bind]. destruct (Z.gtb_spec t 0) as [Ht | Ht].
    + destruct (match_percent_below_100 m t Hr ltac:(lia)) as (q & Hq & _).
      rewrite Hq. cbn [bind]. eauto.
    + cbn [bind]. eauto.
Qed.

(** X11. A score always has the key [exact_match] and never the key
    [error]; it has the keys [matches] and [total], holding the result of
    [compare_json], exactly when the trees are not equal: on an exact match
    [score["matches"]] and [score["total"]] raise [KeyError]. *)
Theorem score_keys (not_subscriptable : value -> exception)
  (gold pred : value) :
  exists score matches total,
    score_accuracy gold pred = Ok score /\
    compare_json gold pred = Ok (matches, total) /\
    subscript not_subscriptable score "exact_match" =
    Ok (VInt (b2z (py_eq gold pred))) /\
    subscript not_subscriptable score "error" = Raise (KeyError "error") /\
    subscript not_subscriptable score "matches" =
    (if py_eq gold pred then Raise (KeyError "matches")
     else Ok (VInt matches)) /\
    subscript not_subscriptable score "total" =
    (if py_eq gold pred then Raise (KeyError "total") else Ok (VInt total)).
Proof.
  destruct (score_accuracy_shape gold pred) as (m & t & pct & Hc & Hs).
  eexists. exists m, t. split; [exact Hs | ]. split; [exact Hc | ].
  destruct (py_eq gold pred); repeat split; reflexivity.
Qed.

(** X12. In a record of the batch the score has the key [error]
    exactly when the candidate producer raised for the query, and its
    value is then [str(e)]: a failure is told apart from a score of
    [0.0]. *)
Theorem batch_error_key
  (run_node : string -> node_run)
  (json_loads : string -> result value)
  (strip : string -> string)
  (call_llm : string -> result value)
  (sql : string) :
  node_prints_json run_node json_loads ->
  exists entries,
    batch_item run_node json_loads strip call_llm score_accuracy sql =
    Ok (VDict [("sql", VStr sql); ("score", VDict entries)]) /\
    dict_get entries "error" =
    match call_llm sql with
    | Ok _ => None
    | Raise e => Some (VStr (str e))
    end.
Proof.
  intro Hnode. unfold batch_item.
  destruct (parse_with_node_returns run_node json_loads strip Hnode sql)
    as (gold_ast & ->).
  cbn [bind]. destruct (call_llm sql) as [llm_ast | e]; cbn [bind].
  - destruct (score_accuracy_shape gold_ast llm_ast)
      as (m & t & pct & _ & ->).
    destruct (py_eq gold_ast llm_ast); eexists; split; reflexivity.
  - eexists. split; reflexivity.
Qed.

Lemma batch_error_key_witness :
  exists entries,
    batch_item sample_run_node sample_json_loads (fun text => text)
               sample_llm score_accuracy "DROP TABLE temp_data;" =
    Ok (VDict [("sql", VStr "DROP TABLE temp_data;");
               ("score", VDict entries)]) /\
    dict_get entries "error" = Some (VStr "Expecting value").
Proof.
  apply (batch_error_key sample_run_node sample_json_loads (fun text => text)
           sample_llm "DROP TABLE temp_data;" sample_node_prints_json).
Defined.

(** * Trees without mappings *)

Lemma zip_loop_swap (xs : list value) :
  Forall (fun x => well_formed x = true -> mapping_free x = true ->
            forall y, well_formed y = true -> mapping_free y = true ->
                      compare_json x y = compare_json y x) xs ->
  forall ys acc,
    forallb well_formed xs = true -> forallb mapping_free xs = true ->
    forallb well_formed ys = true -> forallb mapping_free ys = true ->
    zip_loop compare_json xs ys acc = zip_loop compare_json ys xs acc.
Proof.
  induction 1 as [ | x xs Hx _ IH]; intros [ | y ys] acc Wx Fx Wy Fy;
    try reflexivity.
  simpl in Wx, Fx, Wy, Fy.
  apply andb_prop in Wx, Fx, Wy, Fy.
  destruct Wx as [Wx Wxs], Fx as [Fx Fxs], Wy as [Wy Wys], Fy as [Fy Fys].
  cbn [zip_loop]. destruct acc as [m t].
  rewrite (Hx Wx Fx y Wy Fy).
  destruct (compare_json y x) as [[sub_m sub_t] | e]; [ | reflexivity].
  cbn [bind]. apply IH; assumption.
Qed.

Lemma compare_json_swap_else (gold pred : value) :
  well_formed gold = true -> well_formed pred = true ->
  else_case gold pred = true -> else_case pred gold = true ->
  compare_json gold pred = compare_json pred gold.
Proof.
  intros Hw Hwp H1 H2.
  rewrite (compare_json_else gold pred H1), (compare_json_else pred gold H2).
  rewrite (py_eq_sym_bool gold pred Hw Hwp). reflexivity.
Qed.

Lemma compare_json_swap (gold : value) :
  well_formed gold = true -> mapping_free gold = true ->
  forall pred, well_formed pred = true -> mapping_free pred = true ->
               compare_json gold pred = compare_json pred gold.
Proof.
  induction gold as [ | b | z | f | s | xs IH | d IH] using value_ind;
    intros Hw Hf pred Hwp Hfp;
    [ | | | | | | discriminate Hf];
    (destruct pred as [ | | | | | ys | ]; [ | | | | | | discriminate Hfp]);
    try (apply compare_json_swap_else; [assumption | assumption | reflexivity | reflexivity]).
  cbn [compare_json].
  rewrite (zip_loop_swap xs IH ys (0, 0) Hw Hf Hwp Hfp).
  replace (Z.abs (len ys - len xs)) with (Z.abs (len xs - len ys)) by lia.
  reflexivity.
Qed.

(** X13. On well-formed trees that hold no mapping the scorer is
    symmetric: [compare_json] and [score_accuracy] give the same result
    when [gold] and [pred] are exchanged. The asymmetry of the scorer comes
    from mappings alone. *)
Theorem scorer_symmetric_without_mappings (gold pred : value) :
  well_formed gold = true -> mapping_free gold = true ->
  well_formed pred = true -> mapping_free pred = true ->
  compare_json gold pred = compare_json pred gold /\
  score_accuracy gold pred = score_accuracy pred gold.
Proof.
  intros Hw Hf Hwp Hfp.
  pose proof (compare_json_swap gold Hw Hf pred Hwp Hfp) as Hc.
  split; [exact Hc | ].
  unfold score_accuracy, score_accuracy_with.
  rewrite (py_eq_sym_bool gold pred Hw Hwp), Hc. reflexivity.
Qed.

Lemma scorer_symmetric_without_mappings_witness :
  score_accuracy (VList [VInt 1; VList [VStr "a"]; VNone])
                 (VList [VBool true; VStr "a"]) =
  score_accuracy (VList [VBool true; VStr "a"])
                 (VList [VInt 1; VList [VStr "a"]; VNone]).
Proof.
  apply (proj2 (scorer_symmetric_without_mappings
                  (VList [VInt 1; VList [VStr "a"]; VNone])
                  (VList [VBool true; VStr "a"])
                  eq_refl eq_refl eq_refl eq_refl)).
Defined.
